(** * cxo: content-addressed store and want-set resolver

    A shallow embedding of package [data] (the in-memory store) and of
    package [skyobject] (the container, its root and the recursive
    [want] routine), followed by the properties of the two.

    Conventions of the embedding:
    - [cipher.SHA256] is a 32-byte array; it is read here as the 256-bit
      number its bytes spell, so the zero value [cipher.SHA256{}] is [0];
    - a Go [[]byte] is either [nil] or a (possibly empty) sequence of
      bytes, and the code tests for [nil], so both are kept apart;
    - a Go [map[cipher.SHA256]struct{}] is a finite set, and a map value
      may also be the [nil] map: [option (gset SHA256)];
    - a Go result pair [(v, err)] is a pair whose second component is
      [option error], [None] standing for a [nil] error;
    - a [panic] ends the call: [Panic msg];
    - [sync.RWMutex] is not modelled: every operation of the store takes
      and releases the lock around its body, and the container assumes a
      single owner. *)

From Stdlib Require Import ZArith NArith Ascii String List Bool Lia.
From stdpp Require Import base option gmap sets list strings.

Local Open Scope string_scope.

(** ** Shared data *)

Definition SHA256 : Type := N.

Definition zeroSHA256 : SHA256 := 0%N.

(** [[]byte]: [nil_bytes] is the [nil] slice. *)
Inductive bytes : Type :=
| nil_bytes
| mk_bytes (bs : list Byte.byte).

Definition bytes_is_nil (b : bytes) : bool :=
  match b with nil_bytes => true | mk_bytes _ => false end.

Definition bytes_content (b : bytes) : list Byte.byte :=
  match b with nil_bytes => [] | mk_bytes bs => bs end.

Definition len (b : bytes) : nat := length (bytes_content b).

(** The [error] values of both packages.  The sentinels are the variables
    of [container.go]; the others are built with [fmt.Errorf] and carry
    the value that is printed into their message. *)
Inductive error : Type :=
| ErrMissingRoot
| ErrUnexpectedHrefTag
| ErrMissingSchemaName
| ErrMissingObject
| ErrInvalidArgument
| ErrMalformedRoot
| ErrStopInspection
| ErrKeyAlreadyPresent (key : SHA256)      (* "key already present: %v" *)
| ErrInvalidSchemaTag (p : string)         (* "invalid schema tag: %s" *)
| ErrUnregisteredSchema (name : string)    (* "unregistered schema: %s" *)
| ErrEncoder (msg : string).               (* an error of the encoder *)

(** The result of a call that may panic. *)
Inductive outcome (A : Type) : Type :=
| Done (a : A)
| Panic (msg : string).
Arguments Done {A} a.
Arguments Panic {A} msg.

(** The hash function, [cipher.SumSHA256]. *)
Class Cipher : Type := { SumSHA256 : list Byte.byte → SHA256 }.

(** ** Package data *)

Module data.

Record DB : Type := mkDB { data : gmap SHA256 bytes }.

Record Statistic : Type := mkStatistic { Total : nat; Memory : nat }.

Definition NewDB : DB := {| data := ∅ |}.

Section store.
Context `{Cipher}.

Definition createKey (b : bytes) : SHA256 := SumSHA256 (bytes_content b).

(** [Update] returns the key and the store it leaves. *)
Definition Update (d : DB) (b : bytes) : outcome (SHA256 * DB) :=
  let key := createKey b in
  if (key =? zeroSHA256)%N || bytes_is_nil b then Panic "Invalid key"
  else Done (key, {| data := <[key := b]> (data d) |}).

Definition has (d : DB) (key : SHA256) : bool :=
  match data d !! key with Some _ => true | None => false end.

(** [Add] returns its error and the store it leaves. *)
Definition Add (d : DB) (key : SHA256) (value : bytes)
  : outcome (option error * DB) :=
  if (key =? zeroSHA256)%N || bytes_is_nil value then Panic "Invalid key"
  else if has d key then Done (Some (ErrKeyAlreadyPresent key), d)
  else Done (None, {| data := <[key := value]> (data d) |}).

Definition Has (d : DB) (key : SHA256) : bool := has d key.

(** [v, ok = d.data[key]]: a missing key reads as the zero value, [nil]. *)
Definition Get (d : DB) (key : SHA256) : bytes * bool :=
  match data d !! key with
  | Some v => (v, true)
  | None => (nil_bytes, false)
  end.

(** [Where]: Go's [range] over a map visits every entry once, in an order
    that is not specified; the enumeration of the table stands for it,
    and what is proved of [Where] does not depend on the order. *)
Definition Where (d : DB) (q : SHA256 → bytes → bool) : list SHA256 :=
  fold_left (λ result kv, if q kv.1 kv.2 then (result ++ [kv.1])%list
                          else result)
    (map_to_list (data d)) [].

Definition Statistic_of (d : DB) : Statistic :=
  {| Total := size (data d);
     Memory := map_fold (λ _ v acc, acc + len v) 0 (data d) |}.

End store.

End data.

(** ** The functions of Go's [strings] package that the code calls *)

Module gostrings.

(** [strings.HasPrefix(s, prefix)] *)
Definition HasPrefix (s pre : string) : bool := String.prefix pre s.

(** [strings.Contains(s, substr)] *)
Fixpoint Contains (s substr : string) : bool :=
  HasPrefix s substr ||
  match s with
  | EmptyString => false
  | String _ s' => Contains s' substr
  end.

(** [strings.Split(s, sep)] for a separator of one byte, which is how the
    code calls it ([","] and ["="]): the pieces between the separators,
    so a string with [n] separators gives [n + 1] pieces. *)
Fixpoint Split (s : string) (sep : ascii) : list string :=
  match s with
  | EmptyString => [EmptyString]
  | String ch s' =>
      if Ascii.eqb ch sep then EmptyString :: Split s' sep
      else match Split s' sep with
           | p :: ps => String ch p :: ps
           | [] => [String ch EmptyString]
           end
  end.

End gostrings.

(** ** Package skyobject *)

Module skyobject.

(** [encoder.StructField], as far as the code reads it. *)
Record StructField : Type := mkStructField {
  Name : string;
  Type_ : string;
  Tag : string }.

(** Modelled from the spec: the declaration of [Schema] is not among the
    sources; a schema is a name and an ordered list of fields. *)
Record Schema : Type := mkSchema {
  Schema_Name : string;
  Fields : list StructField }.

(** Modelled from the spec: the declaration of [DynamicHref] is not among
    the sources; it is the inline pair of a schema hash and an object
    hash. *)
Record DynamicHref : Type := mkDynamicHref {
  DynamicHref_Schema : SHA256;
  ObjKey : SHA256 }.

(** Modelled from the spec: the declaration of [Root] is not among the
    sources; the code reads the fields [Schema], [Root], [registry] and
    [Time], the last a signed 64-bit integer that is only compared. *)
Record Root : Type := mkRoot {
  Root_Schema : SHA256;
  Root_Root : SHA256;
  registry : gmap string SHA256;
  Time : Z }.

Record Container : Type := mkContainer {
  db : data.DB;
  root : option Root }.

(** What a decoding call of the encoder gives. *)
Inductive decoded (A : Type) : Type :=
| Decoded (a : A)
| DecodeFailed (err : error).
Arguments Decoded {A} a.
Arguments DecodeFailed {A} err.

(** The serialization codec, package [encoder]: [DeserializeRaw] into a
    [Schema], and [DeserializeField] into each of the three types the
    code asks for. *)
Class Encoder : Type := {
  DeserializeRaw : bytes → decoded Schema;
  DeserializeField_SHA256 :
    bytes → list StructField → string → decoded SHA256;
  DeserializeField_SHA256s :
    bytes → list StructField → string → decoded (list SHA256);
  DeserializeField_DynamicHref :
    bytes → list StructField → string → decoded DynamicHref }.

(** [reflect.StructTag(tag).Get(key)] and the three type names that
    [typeName] computes when the package is loaded. *)
Class Reflect : Type := {
  StructTag_Get : string → string → string;
  hrefTypeName : string;
  hrefArrayTypeName : string;
  dynamicHrefTypeName : string }.

Definition NewContainer (d : data.DB) : Container :=
  {| db := d; root := None |}.

Definition Root_of (c : Container) : option Root := root c.

(** [SetRoot] returns [ok] and the container it leaves; a [nil] root
    panics. *)
Definition SetRoot (c : Container) (r : option Root)
  : outcome (bool * Container) :=
  match r with
  | None => Panic "missing root object"
  | Some new =>
      match root c with
      | None => Done (true, {| db := db c; root := Some new |})
      | Some held =>
          if (Time held <? Time new)%Z
          then Done (true, {| db := db c; root := Some new |})
          else Done (false, c)
      end
  end.

(** [decodeRoot], whose code is not among the sources: the root (or
    [nil]) and the error (or [nil]) it gives for the bytes. *)
Class RootDecoder : Type := {
  decodeRoot : bytes → option Root * option error }.

(** [SetEncodedRoot] returns [(ok, err)] and the container it leaves. *)
Definition SetEncodedRoot `{RootDecoder} (c : Container) (b : bytes)
  : outcome ((bool * option error) * Container) :=
  match decodeRoot b with
  | (_, Some err) => Done ((false, Some err), c)
  | (r, None) =>
      match SetRoot c r with
      | Done (ok, c') => Done ((ok, None), c')
      | Panic msg => Panic msg
      end
  end.

(** The result pair of [Want] and [want]: the map (or [nil]) and the
    error (or [nil]). *)
Abbreviation want_result := (option (gset SHA256) * option error)%type.

(** [mergeMaps(dst, appention)]; ranging over a [nil] map does nothing. *)
Definition mergeMaps (dst : gset SHA256) (appention : option (gset SHA256))
  : gset SHA256 :=
  match appention with
  | Some a => dst ∪ a
  | None => dst
  end.

(** [tagSchemaName]: the loop returns from the function at the first
    piece that starts with ["schema="]. *)
Fixpoint tagSchemaName_loop (ps : list string)
  : option (string * option error) :=
  match ps with
  | [] => None
  | p :: ps' =>
      if gostrings.HasPrefix p "schema=" then
        let ss := gostrings.Split p "="%char in
        if negb (length ss =? 2)%nat
        then Some ("", Some (ErrInvalidSchemaTag p))
        else Some (nth 1 ss "", None)
      else tagSchemaName_loop ps'
  end.

Definition tagSchemaName (tag : string) : string * option error :=
  match tagSchemaName_loop (gostrings.Split tag ","%char) with
  | Some r => r
  | None =>
      let s := "" in
      if String.eqb s "" then (s, Some ErrMissingSchemaName) else (s, None)
  end.

(** *** The container as state

    The methods of [*Container] run against the container and the store
    it points to.  A computation takes the container and gives it back;
    its value is [None] when the recursion budget of the model is used
    up (the Go code has no such budget: there it would not return). *)
Definition M (A : Type) : Type := Container → option A * Container.

Definition ret {A : Type} (a : A) : M A := λ c, (Some a, c).

Definition bind {A B : Type} (m : M A) (f : A → M B) : M B :=
  λ c, match m c with
       | (Some a, c') => f a c'
       | (None, c') => (None, c')
       end.

Definition exhausted {A : Type} : M A := λ c, (None, c).

Declare Scope container_scope.
Delimit Scope container_scope with container.
Notation "'let*' pat := m 'in' k" :=
  (bind m (λ x, match x with pat => k end))
  (at level 10, pat pattern, m at level 100, k at level 200)
  : container_scope.
Local Open Scope container_scope.

(** [c.db.Get(key)] *)
Definition db_Get (key : SHA256) : M (bytes * bool) :=
  λ c, (Some (data.Get (db c) key), c).

(** [c.root] *)
Definition read_root : M (option Root) := λ c, (Some (root c), c).

(** [addMissing(w, keys...)], giving the map it has filled. *)
Fixpoint addMissing (w : gset SHA256) (keys : list SHA256)
  : M (gset SHA256) :=
  match keys with
  | [] => ret w
  | key :: keys' =>
      let* (_, ok) := db_Get key in
      addMissing (if negb ok then {[key]} ∪ w else w) keys'
  end.

Section resolver.
Context `{Encoder} `{Reflect}.

Definition skyobjectTag (sf : StructField) : string :=
  StructTag_Get (Tag sf) "skyobject".

Definition schemaByTag (tag : string) : M (SHA256 * option error) :=
  match tagSchemaName tag with
  | (_, Some e) => ret (zeroSHA256, Some e)
  | (schemaName, None) =>
      let* r := read_root in
      match r with
      | None => ret (zeroSHA256, Some ErrMissingRoot)
      | Some r =>
          match registry r !! schemaName with
          | Some s => ret (s, None)
          | None => ret (zeroSHA256, Some (ErrUnregisteredSchema schemaName))
          end
      end
  end.

(** Where the body of the loop over the fields leaves: at the next
    field, with the map so far, or at the label [Error]. *)
Inductive flow : Type :=
| Next (want : gset SHA256)
| GotoError (err : error).

Section loops.
(** The recursive call [c.want]. *)
Variable want_rec : SHA256 → SHA256 → M want_result.

(** [w, err = c.want(schk, ref)], then the jump or the merge. *)
Definition want_merge (schk ref : SHA256) (want : gset SHA256) : M flow :=
  let* (w, err) := want_rec schk ref in
  match err with
  | Some e => ret (GotoError e)
  | None => ret (Next (mergeMaps want w))
  end.

(** [for _, ref := range refs] *)
Fixpoint want_refs (schk : SHA256) (refs : list SHA256)
    (want : gset SHA256) : M flow :=
  match refs with
  | [] => ret (Next want)
  | ref :: refs' =>
      let* fl := want_merge schk ref want in
      match fl with
      | Next want' => want_refs schk refs' want'
      | GotoError e => ret (GotoError e)
      end
  end.

(** The body of [for _, sf := range s.Fields]. *)
Definition want_field (objd : bytes) (fields : list StructField)
    (sf : StructField) (want : gset SHA256) : M flow :=
  let tag := skyobjectTag sf in
  if negb (gostrings.Contains tag "href") then ret (Next want)
  else if String.eqb (Type_ sf) hrefTypeName then
    match DeserializeField_SHA256 objd fields (Name sf) with
    | DecodeFailed e => ret (GotoError e)
    | Decoded ref =>
        let* (schk, err) := schemaByTag tag in
        match err with
        | Some e => ret (GotoError e)
        | None => want_merge schk ref want
        end
    end
  else if String.eqb (Type_ sf) hrefArrayTypeName then
    match DeserializeField_SHA256s objd fields (Name sf) with
    | DecodeFailed e => ret (GotoError e)
    | Decoded refs =>
        let* (schk, err) := schemaByTag tag in
        match err with
        | Some e => ret (GotoError e)
        | None => want_refs schk refs want
        end
    end
  else if String.eqb (Type_ sf) dynamicHrefTypeName then
    match DeserializeField_DynamicHref objd fields (Name sf) with
    | DecodeFailed e => ret (GotoError e)
    | Decoded dh => want_merge (DynamicHref_Schema dh) (ObjKey dh) want
    end
  else ret (GotoError ErrUnexpectedHrefTag).

Fixpoint want_fields (objd : bytes) (fields rest : list StructField)
    (want : gset SHA256) : M flow :=
  match rest with
  | [] => ret (Next want)
  | sf :: rest' =>
      let* fl := want_field objd fields sf want in
      match fl with
      | Next want' => want_fields objd fields rest' want'
      | GotoError e => ret (GotoError e)
      end
  end.

End loops.

(** [want], with a budget for the depth of the recursion. *)
Fixpoint want (fuel : nat) (schk objk : SHA256) : M want_result :=
  match fuel with
  | O => exhausted
  | S fuel' =>
      let want0 : gset SHA256 := ∅ in
      let* (schd, ok) := db_Get schk in
      if negb ok then
        let* want1 := addMissing ({[schk]} ∪ want0) [objk] in
        ret (Some want1, None)
      else
        let* (objd, ok) := db_Get objk in
        if negb ok then ret (Some ({[objk]} ∪ want0), None)
        else
          match DeserializeRaw schd with
          | DecodeFailed e => ret (Some want0, Some e)
          | Decoded s =>
              let* fl := want_fields (want fuel') objd (Fields s) (Fields s) want0 in
              match fl with
              | Next want' => ret (Some want', None)
              | GotoError e => ret (None, Some e)
              end
          end
  end.

(** [Want]: with no root the named results go back as they are, [nil]
    and [nil]. *)
Definition Want (fuel : nat) : M want_result :=
  let* r := read_root in
  match r with
  | None => ret (None, None)
  | Some r => want fuel (Root_Schema r) (Root_Root r)
  end.

End resolver.

End skyobject.

(** ** Runs of several calls *)

(** One [SetRoot] with a root that is not [nil], keeping the container. *)
Definition SetRoot_run (c : skyobject.Container) (r : skyobject.Root)
  : skyobject.Container :=
  match skyobject.SetRoot c (Some r) with
  | Done (_, c') => c'
  | Panic _ => c
  end.

(** [SetRoot] with each root of [rs] in turn. *)
Definition SetRoot_all (c : skyobject.Container) (rs : list skyobject.Root)
  : skyobject.Container :=
  fold_left SetRoot_run rs c.

(** The retained root is one of the roots seen, and none of the roots
    seen has a later time. *)
Definition latest_of (first : option skyobject.Root)
    (rs : list skyobject.Root) (kept : option skyobject.Root) : Prop :=
  match kept with
  | None => first = None ∧ rs = []
  | Some r =>
      (first = Some r ∨ r ∈ rs) ∧
      (∀ h, first = Some h → (skyobject.Time h ≤ skyobject.Time r)%Z) ∧
      (∀ r', r' ∈ rs → (skyobject.Time r' ≤ skyobject.Time r)%Z)
  end.

(** ** Bytes of a string *)

(** The byte [ch] occurs in the string. *)
Fixpoint mentions (ch : ascii) (s : string) : bool :=
  match s with
  | EmptyString => false
  | String x s' => Ascii.eqb x ch || mentions ch s'
  end.

(** ** Stores that the operations build *)

(** The stores reached from [NewDB] by calls of [Update] and [Add] that
    return. *)
Inductive built `{Cipher} : data.DB → Prop :=
| built_NewDB : built data.NewDB
| built_Update (d d' : data.DB) (b : bytes) (k : SHA256) :
    built d → data.Update d b = Done (k, d') → built d'
| built_Add (d d' : data.DB) (k : SHA256) (v : bytes) (e : option error) :
    built d → data.Add d k v = Done (e, d') → built d'.


(** ** The graph that the resolver walks *)

(** A computation that gives the container back as it took it. *)
Definition readonly {A : Type} (m : skyobject.M A) : Prop :=
  ∀ c : skyobject.Container, (m c).2 = c.

Section graph.
Import skyobject.
Context `{Encoder} `{Reflect}.

(** The pairs (schema hash, object hash) that the body of the loop over
    the fields passes to [c.want] for the field [sf], in the order of
    the calls; [None] where the body jumps to [Error] before it has all
    of them. *)
Definition field_refs (c : Container) (objd : bytes)
    (fields : list StructField) (sf : StructField)
  : option (list (SHA256 * SHA256)) :=
  let tag := skyobjectTag sf in
  if negb (gostrings.Contains tag "href") then Some []
  else if String.eqb (Type_ sf) hrefTypeName then
    match DeserializeField_SHA256 objd fields (Name sf),
          (schemaByTag tag c).1 with
    | Decoded ref, Some (schk, None) => Some [(schk, ref)]
    | _, _ => None
    end
  else if String.eqb (Type_ sf) hrefArrayTypeName then
    match DeserializeField_SHA256s objd fields (Name sf),
          (schemaByTag tag c).1 with
    | Decoded refs, Some (schk, None) => Some (pair schk <$> refs)
    | _, _ => None
    end
  else if String.eqb (Type_ sf) dynamicHrefTypeName then
    match DeserializeField_DynamicHref objd fields (Name sf) with
    | Decoded dh => Some [(DynamicHref_Schema dh, ObjKey dh)]
    | DecodeFailed _ => None
    end
  else None.

Fixpoint fields_refs (c : Container) (objd : bytes)
    (fields rest : list StructField) : option (list (SHA256 * SHA256)) :=
  match rest with
  | [] => Some []
  | sf :: rest' =>
      match field_refs c objd fields sf, fields_refs c objd fields rest' with
      | Some ps, Some qs => Some (ps ++ qs)%list
      | _, _ => None
      end
  end.

(** The references of the object [objk] read under the schema [schk],
    when both are in the store and the schema decodes. *)
Definition node_refs (c : Container) (schk objk : SHA256)
  : option (list (SHA256 * SHA256)) :=
  match data.Get (db c) schk, data.Get (db c) objk with
  | (schd, true), (objd, true) =>
      match DeserializeRaw schd with
      | Decoded s => fields_refs c objd (Fields s) (Fields s)
      | DecodeFailed _ => None
      end
  | _, _ => None
  end.

(** Every schema and every object that can be reached from the pair is
    in the store and can be read, and no path of references from the
    pair is longer than [depth]. *)
Fixpoint graph_present (depth : nat) (c : Container) (schk objk : SHA256)
  : bool :=
  match depth with
  | O => false
  | S depth' =>
      match node_refs c schk objk with
      | Some ps => forallb (λ p, graph_present depth' c p.1 p.2) ps
      | None => false
      end
  end.

(** No hash of the map is a key of the store. *)
Definition all_absent (c : Container) (w : gset SHA256) : Prop :=
  ∀ h, h ∈ w → data.data (db c) !! h = None.

(** The calls of [want_rec] for the pairs of [ps] in turn, each followed
    by the jump to [Error] or the merge into the map. *)
Fixpoint calls (want_rec : SHA256 → SHA256 → M want_result)
    (ps : list (SHA256 * SHA256)) (want : gset SHA256) : M flow :=
  match ps with
  | [] => ret (Next want)
  | p :: ps' =>
      bind (want_merge want_rec p.1 p.2 want)
        (λ fl, match fl with
               | Next want' => calls want_rec ps' want'
               | GotoError e => ret (GotoError e)
               end)
  end.

(** The call of [want_rec] for the pair [p] gives the map [found p], no
    error, and the container back. *)
Definition gives (want_rec : SHA256 → SHA256 → M want_result)
    (found : SHA256 * SHA256 → gset SHA256) (c : Container)
    (p : SHA256 * SHA256) : Prop :=
  want_rec p.1 p.2 c = (Some (Some (found p), None), c).

End graph.

(** ** Small instances to run the definitions on *)

Module demo.
Import skyobject.

(** A stand-in for the hash: the bytes read as a number, plus one. *)
#[local] Instance cipher : Cipher :=
  {| SumSHA256 :=
       λ bs, N.succ (fold_right (λ x acc, Byte.to_N x + 256 * acc)%N 0%N bs) |}.

Definition payload_a : bytes := mk_bytes [Byte.x61].
Definition payload_b : bytes := mk_bytes [Byte.x62; Byte.x63].

Definition store_a : data.DB := {| data.data := {[ 98%N := payload_a ]} |}.

Definition root_at (t : Z) : Root :=
  {| Root_Schema := 1%N; Root_Root := 2%N; registry := ∅; Time := t |}.

(** A stand-in for the codec.  The byte [01] is the schema of a record
    with a title and a reference [Next] to a record of the schema
    registered as [S2]; the byte [02] is the schema of a record without
    references; nothing else is a schema.  The first byte of an object
    is the hash its reference holds. *)
Definition schema_one : Schema :=
  {| Schema_Name := "One";
     Fields := [ {| Name := "Title"; Type_ := "string"; Tag := "" |};
                 {| Name := "Next"; Type_ := "cipher.SHA256";
                    Tag := "href,schema=S2" |} ] |}.

Definition schema_two : Schema :=
  {| Schema_Name := "Two";
     Fields := [ {| Name := "Value"; Type_ := "int64"; Tag := "" |} ] |}.

#[local] Instance encoder : Encoder :=
  {| DeserializeRaw := λ b,
       match b with
       | mk_bytes [Byte.x01] => Decoded schema_one
       | mk_bytes [Byte.x02] => Decoded schema_two
       | _ => DecodeFailed (ErrEncoder "not a schema")
       end;
     DeserializeField_SHA256 := λ b _ _,
       match b with
       | mk_bytes (x :: _) => Decoded (Byte.to_N x)
       | _ => DecodeFailed (ErrEncoder "short object")
       end;
     DeserializeField_SHA256s := λ b _ _,
       Decoded (Byte.to_N <$> bytes_content b);
     DeserializeField_DynamicHref := λ b _ _,
       match b with
       | mk_bytes (x :: y :: _) =>
           Decoded {| DynamicHref_Schema := Byte.to_N x;
                      ObjKey := Byte.to_N y |}
       | _ => DecodeFailed (ErrEncoder "short object")
       end |}.

(** A stand-in for [reflect]: the tag of a field is its skyobject tag. *)
#[local] Instance reflect : Reflect :=
  {| StructTag_Get := λ tag _, tag;
     hrefTypeName := "cipher.SHA256";
     hrefArrayTypeName := "[]cipher.SHA256";
     dynamicHrefTypeName := "skyobject.DynamicHref" |}.

(** The keys are the hashes of the payloads under [cipher]: schema one
    is [2], schema two is [3], the object [23] refers to the object
    [22]. *)
Definition S1 : SHA256 := 2%N.
Definition S2 : SHA256 := 3%N.
Definition O1 : SHA256 := 23%N.
Definition O2 : SHA256 := 22%N.

Definition store_without_O2 : data.DB :=
  {| data.data := {[ S1 := mk_bytes [Byte.x01];
                     S2 := mk_bytes [Byte.x02];
                     O1 := mk_bytes [Byte.x16] ]} |}.

Definition store_with_O2 : data.DB :=
  {| data.data := <[ O2 := mk_bytes [Byte.x15] ]>
                    (data.data store_without_O2) |}.

Definition R1 : Root :=
  {| Root_Schema := S1; Root_Root := O1;
     registry := {[ "S2" := S2 ]}; Time := 1 |}.

Definition container_without_O2 : Container :=
  {| db := store_without_O2; root := Some R1 |}.

Definition container_with_O2 : Container :=
  {| db := store_with_O2; root := Some R1 |}.

(** A store whose entry [5] does not decode as a schema. *)
Definition store_bad_schema : data.DB :=
  {| data.data := {[ 5%N := mk_bytes [Byte.x04];
                     23%N := mk_bytes [Byte.x16] ]} |}.

Definition container_bad_schema : Container :=
  {| db := store_bad_schema;
     root := Some {| Root_Schema := 5%N; Root_Root := 23%N;
                     registry := ∅; Time := 1 |} |}.

(** A root that registers a schema under the empty name. *)
Definition container_empty_name : Container :=
  {| db := data.NewDB;
     root := Some {| Root_Schema := S1; Root_Root := O1;
                     registry := {[ "" := 7%N ]}; Time := 1 |} |}.

End demo.

(** ** More small instances *)

Module demo_more.
Import skyobject.

(** The stand-in codec of [demo] with two more schemas: the byte [03] is
    the schema of a record whose field is tagged as a reference but
    declared as a string; the byte [05] is the schema of a record with
    an array of references to records of the schema registered as [S2].
    The bytes of an object are the hashes of its array. *)
Definition schema_three : Schema :=
  {| Schema_Name := "Three";
     Fields := [ {| Name := "Bad"; Type_ := "string"; Tag := "href" |} ] |}.

Definition schema_five : Schema :=
  {| Schema_Name := "Five";
     Fields := [ {| Name := "Items"; Type_ := "[]cipher.SHA256";
                    Tag := "href,schema=S2" |} ] |}.

#[local] Instance encoder : Encoder :=
  {| DeserializeRaw := λ b,
       match b with
       | mk_bytes [Byte.x03] => Decoded schema_three
       | mk_bytes [Byte.x05] => Decoded schema_five
       | _ => DeserializeRaw (Encoder := demo.encoder) b
       end;
     DeserializeField_SHA256 :=
       DeserializeField_SHA256 (Encoder := demo.encoder);
     DeserializeField_SHA256s :=
       DeserializeField_SHA256s (Encoder := demo.encoder);
     DeserializeField_DynamicHref :=
       DeserializeField_DynamicHref (Encoder := demo.encoder) |}.

(** A record of schema three. *)
Definition container_bad_type : Container :=
  {| db := {| data.data := {[ 4%N := mk_bytes [Byte.x03];
                              23%N := mk_bytes [Byte.x16] ]} |};
     root := Some {| Root_Schema := 4%N; Root_Root := 23%N;
                     registry := ∅; Time := 1 |} |}.

(** A record of schema five whose array holds [22], [24] and [25]; the
    store has the last two. *)
Definition container_array : Container :=
  {| db := {| data.data := {[ 6%N := mk_bytes [Byte.x05];
                              3%N := mk_bytes [Byte.x02];
                              30%N := mk_bytes [Byte.x16; Byte.x18; Byte.x19];
                              24%N := mk_bytes [Byte.x17];
                              25%N := mk_bytes [Byte.x18] ]} |};
     root := Some {| Root_Schema := 6%N; Root_Root := 30%N;
                     registry := {[ "S2" := 3%N ]}; Time := 1 |} |}.

(** An entry that was added under the key [23] and refers to [23], with
    the schema it is read under registered as the schema it refers
    with. *)
Definition container_cycle : Container :=
  {| db := {| data.data := {[ 2%N := mk_bytes [Byte.x01];
                              23%N := mk_bytes [Byte.x17] ]} |};
     root := Some {| Root_Schema := 2%N; Root_Root := 23%N;
                     registry := {[ "S2" := 2%N ]}; Time := 1 |} |}.

(** A root object whose reference is read under a schema entry that
    does not decode. *)
Definition container_nested_bad : Container :=
  {| db := {| data.data := {[ 2%N := mk_bytes [Byte.x01];
                              5%N := mk_bytes [Byte.x04];
                              23%N := mk_bytes [Byte.x16];
                              22%N := mk_bytes [Byte.x15] ]} |};
     root := Some {| Root_Schema := 2%N; Root_Root := 23%N;
                     registry := {[ "S2" := 5%N ]}; Time := 1 |} |}.

(** The store [demo.store_a] after [demo.payload_b] has been stored, and
    the empty store after the same. *)
Definition store_ab : data.DB :=
  {| data.data := <[25443%N := demo.payload_b]> (data.data demo.store_a) |}.

Definition store_b : data.DB :=
  {| data.data := <[25443%N := demo.payload_b]> ∅ |}.

(** A stand-in for [decodeRoot]: one byte is the time of a root, anything
    else is malformed. *)
#[local] Instance root_decoder : RootDecoder :=
  {| decodeRoot := λ b,
       match b with
       | mk_bytes [x] => (Some (demo.root_at (Z.of_N (Byte.to_N x))), None)
       | _ => (None, Some ErrMalformedRoot)
       end |}.

End demo_more.

(** * Properties *)

(** ** The store *)

Lemma Get_lookup (d : data.DB) (key : SHA256) (v : bytes) :
  data.data d !! key = Some v → data.Get d key = (v, true).
Proof. intros Hv. unfold data.Get. by rewrite Hv. Qed.

Lemma Get_missing (d : data.DB) (key : SHA256) :
  data.data d !! key = None → data.Get d key = (nil_bytes, false).
Proof. intros Hv. unfold data.Get. by rewrite Hv. Qed.

Lemma Update_valid `{Cipher} (d : data.DB) (b : bytes) :
  bytes_is_nil b = false →
  data.createKey b ≠ zeroSHA256 →
  data.Update d b =
    Done (data.createKey b,
          {| data.data := <[data.createKey b := b]> (data.data d) |}).
Proof.
  intros Hnil Hkey. unfold data.Update.
  apply N.eqb_neq in Hkey. by rewrite Hkey, Hnil.
Qed.

(** C5: for a byte string that is not nil and whose hash is not the zero
    hash, [Update] returns the hash of the bytes as key, the store it
    leaves holds the bytes under that key, and [Get] of that key then
    gives the bytes back with the found flag set. *)
Theorem Update_Get_roundtrip `{Cipher} (d : data.DB) (b : bytes) :
  bytes_is_nil b = false →
  SumSHA256 (bytes_content b) ≠ zeroSHA256 →
  ∃ d' : data.DB,
    data.Update d b = Done (SumSHA256 (bytes_content b), d') ∧
    data.data d' !! SumSHA256 (bytes_content b) = Some b ∧
    data.Get d' (SumSHA256 (bytes_content b)) = (b, true).
Proof.
  intros Hnil Hkey.
  eexists. split; [by apply Update_valid|].
  assert (Hl : <[data.createKey b := b]> (data.data d) !! data.createKey b
               = Some b) by apply lookup_insert_eq.
  split; [exact Hl|]. by apply Get_lookup.
Qed.

Lemma Update_Get_roundtrip_witness :
  ∃ d' : data.DB,
    data.Update (H := demo.cipher) demo.store_a demo.payload_b
      = Done (25443%N, d') ∧
    data.data d' !! 25443%N = Some demo.payload_b ∧
    data.Get d' 25443%N = (demo.payload_b, true).
Proof.
  apply (Update_Get_roundtrip (H := demo.cipher) demo.store_a demo.payload_b).
  - reflexivity.
  - vm_compute. discriminate.
Defined.

(** C6: [Add] under a key that the store already holds fails with the
    error "key already present" and leaves the whole store as it was, so
    the payload under the key is still the earlier one; under a key the
    store does not hold, [Add] gives no error and the store it leaves
    holds the new payload under the key.  (The key is not the zero hash
    and the payload is not nil: [Add] panics otherwise.) *)
Theorem Add_atomic (d : data.DB) (k : SHA256) (b : bytes) :
  k ≠ zeroSHA256 →
  bytes_is_nil b = false →
  (∀ b1 : bytes, data.data d !! k = Some b1 →
     data.Add d k b = Done (Some (ErrKeyAlreadyPresent k), d) ∧
     data.Get d k = (b1, true)) ∧
  (data.data d !! k = None →
     ∃ d' : data.DB,
       data.Add d k b = Done (None, d') ∧
       data.data d' = <[k := b]> (data.data d) ∧
       data.Get d' k = (b, true)).
Proof.
  intros Hk Hnil. apply N.eqb_neq in Hk.
  split.
  - intros b1 Hb1. unfold data.Add, data.has.
    rewrite Hk, Hnil, Hb1. split; [done|]. by apply Get_lookup.
  - intros Hnone. eexists. unfold data.Add, data.has.
    rewrite Hk, Hnil, Hnone. split; [done|]. split; [done|].
    apply Get_lookup. apply lookup_insert_eq.
Qed.

Lemma Add_atomic_witness :
  data.Add demo.store_a 98%N demo.payload_b
    = Done (Some (ErrKeyAlreadyPresent 98%N), demo.store_a) ∧
  data.Get demo.store_a 98%N = (demo.payload_a, true).
Proof.
  apply (Add_atomic demo.store_a 98%N demo.payload_b);
    [discriminate | reflexivity | reflexivity].
Defined.

(** C7: for a byte string that [Update] accepts, a second [Update] with
    the same bytes returns the same key and leaves the store exactly as
    the first call left it. *)
Theorem Update_idempotent `{Cipher} (d : data.DB) (b : bytes) :
  bytes_is_nil b = false →
  SumSHA256 (bytes_content b) ≠ zeroSHA256 →
  ∃ (k : SHA256) (d1 : data.DB),
    data.Update d b = Done (k, d1) ∧
    data.Update d1 b = Done (k, d1).
Proof.
  intros Hnil Hkey.
  eexists _, _. split; [by apply Update_valid|].
  rewrite Update_valid by done. cbn.
  by rewrite insert_insert_eq.
Qed.

Lemma Update_idempotent_witness :
  ∃ (k : SHA256) (d1 : data.DB),
    data.Update (H := demo.cipher) demo.store_a demo.payload_b
      = Done (k, d1) ∧
    data.Update (H := demo.cipher) d1 demo.payload_b = Done (k, d1).
Proof.
  apply (Update_idempotent (H := demo.cipher) demo.store_a demo.payload_b).
  - reflexivity.
  - vm_compute. discriminate.
Defined.

(** ** The root of the container *)

Section root_facts.
Import skyobject.

(** What one [SetRoot] does, by the root held before. *)
Lemma SetRoot_first (c : Container) (new : Root) :
  root c = None →
  SetRoot c (Some new) = Done (true, {| db := db c; root := Some new |}).
Proof. intros Hr. unfold SetRoot. by rewrite Hr. Qed.

Lemma SetRoot_newer (c : Container) (held new : Root) :
  root c = Some held → (Time held < Time new)%Z →
  SetRoot c (Some new) = Done (true, {| db := db c; root := Some new |}).
Proof.
  intros Hr Hlt. unfold SetRoot. rewrite Hr.
  apply Z.ltb_lt in Hlt. by rewrite Hlt.
Qed.

Lemma SetRoot_not_newer (c : Container) (held new : Root) :
  root c = Some held → (Time new ≤ Time held)%Z →
  SetRoot c (Some new) = Done (false, c).
Proof.
  intros Hr Hle. unfold SetRoot. rewrite Hr.
  apply Z.ltb_ge in Hle. by rewrite Hle.
Qed.

(** The root held after one call, whatever was held before. *)
Lemma SetRoot_run_root (c : Container) (new : Root) :
  root (SetRoot_run c new) =
    match root c with
    | None => Some new
    | Some held => if (Time held <? Time new)%Z then Some new else Some held
    end.
Proof.
  unfold SetRoot_run, SetRoot.
  destruct (root c) as [held|] eqn:Hr; [|done].
  by destruct (Time held <? Time new)%Z.
Qed.

Lemma SetRoot_all_latest (rs : list Root) (c : Container) :
  latest_of (root c) rs (root (SetRoot_all c rs)).
Proof.
  revert c. induction rs as [|new rs IH]; intros c.
  - cbn. destruct (root c) as [h|]; cbn; [|done].
    split; [by left|]. split; [|by intros ? ?%elem_of_nil].
    by intros ? [= ->].
  - cbn [SetRoot_all fold_left]. specialize (IH (SetRoot_run c new)).
    fold (SetRoot_all (SetRoot_run c new) rs) in IH |- *.
    rewrite SetRoot_run_root in IH.
    destruct (root (SetRoot_all (SetRoot_run c new) rs)) as [r|]; cbn in *.
    + destruct IH as (Hin & Hfirst & Hrest).
      destruct (root c) as [held|] eqn:Hr.
      * destruct (Time held <? Time new)%Z eqn:Hlt.
        -- apply Z.ltb_lt in Hlt. specialize (Hfirst new eq_refl).
           split; [|split].
           ++ right. destruct Hin as [[= ->]|Hin];
                [apply list_elem_of_here | by apply list_elem_of_further].
           ++ intros h [= <-]. lia.
           ++ intros r' [->|Hr']%elem_of_cons; [done | by apply Hrest].
        -- apply Z.ltb_ge in Hlt. specialize (Hfirst held eq_refl).
           split; [|split].
           ++ destruct Hin as [Hin|Hin];
                [by left | right; by apply list_elem_of_further].
           ++ by intros h [= <-].
           ++ intros r' [->|Hr']%elem_of_cons; [lia | by apply Hrest].
      * specialize (Hfirst new eq_refl).
        split; [|split].
        -- right. destruct Hin as [[= ->]|Hin];
             [apply list_elem_of_here | by apply list_elem_of_further].
        -- done.
        -- intros r' [->|Hr']%elem_of_cons; [done | by apply Hrest].
    + destruct IH as [Hfirst _].
      destruct (root c) as [held|]; [|done].
      by destruct (Time held <? Time new)%Z.
Qed.

(** C4: [SetRoot] with a root that is not nil replaces the held root
    exactly when none is held or the time of the new root is strictly
    greater than the time of the held one, its result says whether it
    did, and the store is not touched; so after any sequence of [SetRoot]
    calls the retained root is one of the roots seen so far and no root
    seen so far has a greater time. *)
Theorem SetRoot_monotonic :
  (∀ (c : Container) (new : Root),
     ∃ (ok : bool) (c' : Container),
       SetRoot c (Some new) = Done (ok, c') ∧
       db c' = db c ∧
       root c' = (if ok then Some new else root c) ∧
       (ok = true ↔
        root c = None ∨
        ∃ held, root c = Some held ∧ (Time held < Time new)%Z)) ∧
  (∀ (c : Container) (rs : list Root),
     latest_of (root c) rs (root (SetRoot_all c rs))).
Proof.
  split; [|intros c rs; apply SetRoot_all_latest].
  intros c new.
  destruct (root c) as [held|] eqn:Hr.
  - destruct (Z.lt_ge_cases (Time held) (Time new)) as [Hlt|Hge].
    + exists true, {| db := db c; root := Some new |}.
      split; [by eapply SetRoot_newer|]. split; [done|]. split; [done|].
      split; [|done]. intros _. right. by exists held.
    + exists false, c.
      split; [by eapply SetRoot_not_newer|]. split; [done|]. split; [done|].
      split; [done|]. intros [?|(h & [= <-] & Hlt)]; [done | lia].
  - exists true, {| db := db c; root := Some new |}.
    split; [by apply SetRoot_first|]. split; [done|]. split; [done|].
    split; [|done]. intros _. by left.
Qed.

End root_facts.

(** ** The resolver *)

Section resolver_facts.
Import skyobject.
Context `{Encoder} `{Reflect}.

(** *** Running a computation *)

Lemma bind_run {A B : Type} (m : M A) (f : A → M B)
    (c c' : Container) (a : A) :
  m c = (Some a, c') → bind m f c = f a c'.
Proof. intros Hm. unfold bind. by rewrite Hm. Qed.

Lemma db_Get_present (key : SHA256) (v : bytes) (c : Container) :
  data.data (db c) !! key = Some v → db_Get key c = (Some (v, true), c).
Proof. intros Hv. unfold db_Get. by rewrite (Get_lookup _ _ v). Qed.

Lemma db_Get_absent (key : SHA256) (c : Container) :
  data.data (db c) !! key = None →
  db_Get key c = (Some (nil_bytes, false), c).
Proof. intros Hv. unfold db_Get. by rewrite Get_missing. Qed.

(** *** No method of the resolver writes *)

Create HintDb readonly discriminated.

Lemma readonly_ret {A : Type} (a : A) : readonly (ret a).
Proof. by intros c. Qed.

Lemma readonly_exhausted {A : Type} : readonly (@exhausted A).
Proof. by intros c. Qed.

Lemma readonly_bind {A B : Type} (m : M A) (f : A → M B) :
  readonly m → (∀ a, readonly (f a)) → readonly (bind m f).
Proof.
  intros Hm Hf c. unfold bind. specialize (Hm c).
  destruct (m c) as [[a|] c']; cbn in Hm; subst c'; [apply Hf | done].
Qed.

Lemma readonly_db_Get (key : SHA256) : readonly (db_Get key).
Proof. by intros c. Qed.

Lemma readonly_read_root : readonly read_root.
Proof. by intros c. Qed.

#[local] Hint Resolve readonly_ret readonly_exhausted readonly_db_Get
  readonly_read_root : readonly.

Lemma readonly_addMissing (keys : list SHA256) (w : gset SHA256) :
  readonly (addMissing w keys).
Proof.
  revert w. induction keys as [|key keys IH]; intros w; cbn.
  - auto with readonly.
  - apply readonly_bind; [auto with readonly|]. intros [v ok]. apply IH.
Qed.

Lemma readonly_schemaByTag (tag : string) : readonly (schemaByTag tag).
Proof.
  unfold schemaByTag. destruct (tagSchemaName tag) as [name [e|]].
  - auto with readonly.
  - apply readonly_bind; [auto with readonly|]. intros [r|].
    + destruct (registry r !! name); auto with readonly.
    + auto with readonly.
Qed.

#[local] Hint Resolve readonly_addMissing readonly_schemaByTag : readonly.

Section readonly_loops.
Variable want_rec : SHA256 → SHA256 → M want_result.
Hypothesis readonly_rec : ∀ schk objk, readonly (want_rec schk objk).

Lemma readonly_want_merge (schk ref : SHA256) (w : gset SHA256) :
  readonly (want_merge want_rec schk ref w).
Proof.
  unfold want_merge. apply readonly_bind; [apply readonly_rec|].
  intros [w' [e|]]; auto with readonly.
Qed.

Lemma readonly_want_refs (schk : SHA256) (refs : list SHA256)
    (w : gset SHA256) :
  readonly (want_refs want_rec schk refs w).
Proof.
  revert w. induction refs as [|ref refs IH]; intros w; cbn.
  - auto with readonly.
  - apply readonly_bind; [apply readonly_want_merge|].
    intros [w'|e]; [apply IH | auto with readonly].
Qed.

Lemma readonly_want_field (objd : bytes) (fields : list StructField)
    (sf : StructField) (w : gset SHA256) :
  readonly (want_field want_rec objd fields sf w).
Proof.
  unfold want_field.
  destruct (negb _); [auto with readonly|].
  destruct (String.eqb _ hrefTypeName).
  { destruct (DeserializeField_SHA256 _ _ _); [|auto with readonly].
    apply readonly_bind; [auto with readonly|].
    intros [schk [e|]]; [auto with readonly | apply readonly_want_merge]. }
  destruct (String.eqb _ hrefArrayTypeName).
  { destruct (DeserializeField_SHA256s _ _ _); [|auto with readonly].
    apply readonly_bind; [auto with readonly|].
    intros [schk [e|]]; [auto with readonly | apply readonly_want_refs]. }
  destruct (String.eqb _ dynamicHrefTypeName); [|auto with readonly].
  destruct (DeserializeField_DynamicHref _ _ _); [|auto with readonly].
  apply readonly_want_merge.
Qed.

Lemma readonly_want_fields (objd : bytes) (fields rest : list StructField)
    (w : gset SHA256) :
  readonly (want_fields want_rec objd fields rest w).
Proof.
  revert w. induction rest as [|sf rest IH]; intros w; cbn.
  - auto with readonly.
  - apply readonly_bind; [apply readonly_want_field|].
    intros [w'|e]; [apply IH | auto with readonly].
Qed.

End readonly_loops.

Lemma readonly_want (fuel : nat) (schk objk : SHA256) :
  readonly (want fuel schk objk).
Proof.
  revert schk objk. induction fuel as [|fuel IH]; intros schk objk; cbn [want].
  - auto with readonly.
  - apply readonly_bind; [auto with readonly|]. intros [schd ok].
    destruct (negb ok).
    { apply readonly_bind; auto with readonly. }
    apply readonly_bind; [auto with readonly|]. intros [objd ok'].
    destruct (negb ok'); [auto with readonly|].
    destruct (DeserializeRaw schd) as [s|e]; [|auto with readonly].
    apply readonly_bind; [by apply readonly_want_fields|].
    intros [w|e]; auto with readonly.
Qed.

(** C9: [Want] and [want] give back the container they took, with the
    same table in the store and the same root, for every pair of
    hashes, every container and every budget, whether they give a map,
    an error, or use up the budget. *)
Theorem resolver_read_only (fuel : nat) (schk objk : SHA256)
    (c : Container) :
  (want fuel schk objk c).2 = c ∧
  (Want fuel c).2 = c ∧
  data.data (db (want fuel schk objk c).2) = data.data (db c) ∧
  root (want fuel schk objk c).2 = root c ∧
  data.data (db (Want fuel c).2) = data.data (db c) ∧
  root (Want fuel c).2 = root c.
Proof.
  assert (Hw : (want fuel schk objk c).2 = c) by apply readonly_want.
  assert (HW : (Want fuel c).2 = c).
  { unfold Want. apply readonly_bind; [auto with readonly|].
    intros [r|]; [apply readonly_want | auto with readonly]. }
  by rewrite Hw, HW.
Qed.

(** *** The first two branches of [want] *)

Lemma want_schema_absent_object_present (fuel : nat) (schk objk : SHA256)
    (objd : bytes) (c : Container) :
  data.data (db c) !! schk = None →
  data.data (db c) !! objk = Some objd →
  want (S fuel) schk objk c = (Some (Some {[schk]}, None), c).
Proof.
  intros Hs Ho. cbn [want].
  rewrite (bind_run _ _ c c (nil_bytes, false)) by by apply db_Get_absent.
  cbn [negb addMissing].
  rewrite (bind_run _ _ c c ({[schk]} ∪ ∅)).
  - unfold ret. by rewrite (right_id_L ∅ (∪)).
  - by rewrite (bind_run _ _ c c (objd, true)) by by apply db_Get_present.
Qed.

Lemma want_schema_absent_object_absent (fuel : nat) (schk objk : SHA256)
    (c : Container) :
  data.data (db c) !! schk = None →
  data.data (db c) !! objk = None →
  want (S fuel) schk objk c = (Some (Some ({[schk]} ∪ {[objk]}), None), c).
Proof.
  intros Hs Ho. cbn [want].
  rewrite (bind_run _ _ c c (nil_bytes, false)) by by apply db_Get_absent.
  cbn [negb addMissing].
  rewrite (bind_run _ _ c c ({[objk]} ∪ ({[schk]} ∪ ∅))).
  - unfold ret. by rewrite (right_id_L ∅ (∪)), (comm_L (∪) {[objk]}).
  - by rewrite (bind_run _ _ c c (nil_bytes, false))
      by by apply db_Get_absent.
Qed.

Lemma want_object_absent (fuel : nat) (schk objk : SHA256) (schd : bytes)
    (c : Container) :
  data.data (db c) !! schk = Some schd →
  data.data (db c) !! objk = None →
  want (S fuel) schk objk c = (Some (Some {[objk]}, None), c).
Proof.
  intros Hs Ho. cbn [want].
  rewrite (bind_run _ _ c c (schd, true)) by by apply db_Get_present.
  cbn [negb].
  rewrite (bind_run _ _ c c (nil_bytes, false)) by by apply db_Get_absent.
  cbn [negb]. unfold ret. by rewrite (right_id_L ∅ (∪)).
Qed.

(** With both entries in the store [want] decodes the schema and walks
    its fields. *)
Lemma want_both_present (fuel : nat) (schk objk : SHA256)
    (schd objd : bytes) (c : Container) :
  data.data (db c) !! schk = Some schd →
  data.data (db c) !! objk = Some objd →
  want (S fuel) schk objk c =
    match DeserializeRaw schd with
    | DecodeFailed e => (Some (Some ∅, Some e), c)
    | Decoded s =>
        bind (want_fields (want fuel) objd (Fields s) (Fields s) ∅)
          (λ fl, match fl with
                 | Next w => ret (Some w, None)
                 | GotoError e => ret (None, Some e)
                 end) c
    end.
Proof.
  intros Hs Ho. cbn [want].
  rewrite (bind_run _ _ c c (schd, true)) by by apply db_Get_present.
  cbn [negb].
  rewrite (bind_run _ _ c c (objd, true)) by by apply db_Get_present.
  cbn [negb]. by destruct (DeserializeRaw schd).
Qed.

(** C1: when the schema is not in the store, [want] gives no error and
    its map holds the schema hash alone if the object is in the store,
    and the schema hash and the object hash, and nothing else, if the
    object is not in the store either; this for every pair of hashes,
    every container and every budget of at least one call. *)
Theorem want_shallow_gap (fuel : nat) (schk objk : SHA256) (c : Container) :
  data.data (db c) !! schk = None →
  want (S fuel) schk objk c =
    (Some (Some (if data.has (db c) objk then {[schk]}
                 else {[schk]} ∪ {[objk]}), None), c) ∧
  ∀ (w : gset SHA256) (h : SHA256),
    (want (S fuel) schk objk c).1 = Some (Some w, None) →
    h ∈ w → h = schk ∨ (h = objk ∧ data.data (db c) !! objk = None).
Proof.
  intros Hs. unfold data.has.
  destruct (data.data (db c) !! objk) as [objd|] eqn:Ho.
  - rewrite (want_schema_absent_object_present _ _ _ objd) by done.
    split; [done|]. cbn. intros w h [= <-] ->%elem_of_singleton. by left.
  - rewrite want_schema_absent_object_absent by done.
    split; [done|]. cbn.
    intros w h [= <-] [->%elem_of_singleton| ->%elem_of_singleton]%elem_of_union;
      auto.
Qed.

(** C2, the input on which it fails: a schema entry that does not decode
    makes [want] leave through the plain [return] that follows
    [DeserializeRaw], before the label [Error], with the error and the
    empty map it made at its start, not with [nil]. *)
Theorem want_undecodable_schema (fuel : nat) (schk objk : SHA256)
    (schd objd : bytes) (e : error) (c : Container) :
  data.data (db c) !! schk = Some schd →
  data.data (db c) !! objk = Some objd →
  DeserializeRaw schd = DecodeFailed e →
  want (S fuel) schk objk c = (Some (Some ∅, Some e), c).
Proof.
  intros Hs Ho He.
  rewrite (want_both_present _ _ _ schd objd) by done. by rewrite He.
Qed.

(** Everywhere else an error comes with the [nil] map: an error next to
    a map means that the schema entry did not decode, and the map is the
    empty one. *)
Lemma want_error_shape (fuel : nat) (schk objk : SHA256) (c c' : Container)
    (w : gset SHA256) (e : error) :
  want fuel schk objk c = (Some (Some w, Some e), c') →
  w = ∅ ∧
  ∃ schd, data.data (db c) !! schk = Some schd ∧
          DeserializeRaw schd = DecodeFailed e.
Proof.
  destruct fuel as [|fuel]; [done|].
  destruct (data.data (db c) !! schk) as [schd|] eqn:Hs.
  - destruct (data.data (db c) !! objk) as [objd|] eqn:Ho.
    + rewrite (want_both_present _ _ _ schd objd) by done.
      destruct (DeserializeRaw schd) as [s|e'] eqn:Hd.
      * unfold bind.
        destruct (want_fields _ _ _ _ _ c) as [[[w'|e']|] c''];
          unfold ret; intros ?; simplify_eq.
      * intros [= <- <- <-]. split; [done|]. by exists schd.
    + by rewrite (want_object_absent _ _ _ schd).
  - destruct (data.data (db c) !! objk) as [objd|] eqn:Ho.
    + by rewrite (want_schema_absent_object_present _ _ _ objd).
    + by rewrite want_schema_absent_object_absent.
Qed.

(** *** [Want] without a root *)

(** C8, as the code has it: with no root held, [Want] gives the [nil]
    map, which has no element, and no error, for every budget; it does
    not call [want] and does not make a map. *)
Theorem Want_no_root (fuel : nat) (c : Container) :
  root c = None →
  Want fuel c = (Some (None, None), c).
Proof. intros Hr. unfold Want, bind, read_root. by rewrite Hr. Qed.

(** *** Tags *)

(** The loop of [tagSchemaName] passes the pieces that do not start with
    ["schema="]. *)
Lemma tagSchemaName_loop_skip (pre rest : list string) :
  Forall (λ p, gostrings.HasPrefix p "schema=" = false) pre →
  tagSchemaName_loop (pre ++ rest)%list = tagSchemaName_loop rest.
Proof.
  induction 1 as [|p pre Hp _ IH]; [done|].
  cbn [app tagSchemaName_loop]. by rewrite Hp.
Qed.

Lemma schemaByTag_named (tag name : string) (r : Root) (c : Container) :
  tagSchemaName tag = (name, None) →
  root c = Some r →
  schemaByTag tag c =
    (Some match registry r !! name with
          | Some s => (s, None)
          | None => (zeroSHA256, Some (ErrUnregisteredSchema name))
          end, c).
Proof.
  intros Ht Hr. unfold schemaByTag. rewrite Ht.
  unfold bind, read_root. rewrite Hr.
  by destruct (registry r !! name).
Qed.

(** C10, as the code has it: when the first piece of the tag that starts
    with ["schema="] is ["schema="] itself, [tagSchemaName] gives the
    empty name and no error; with a root held, [schemaByTag] then looks
    the empty name up in the registry of the root: it fails with the
    error "unregistered schema" for the empty name when the registry has
    no entry under the empty name, and gives the registered hash and no
    error when it has one. *)
Theorem schemaByTag_empty_name (tag : string) (pre post : list string)
    (r : Root) (c : Container) :
  gostrings.Split tag ","%char = (pre ++ "schema=" :: post)%list →
  Forall (λ p, gostrings.HasPrefix p "schema=" = false) pre →
  root c = Some r →
  tagSchemaName tag = ("", None) ∧
  (registry r !! "" = None →
   schemaByTag tag c = (Some (zeroSHA256, Some (ErrUnregisteredSchema "")), c)) ∧
  (∀ s, registry r !! "" = Some s →
   schemaByTag tag c = (Some (s, None), c)).
Proof.
  intros Hsplit Hpre Hr.
  assert (Ht : tagSchemaName tag = ("", None)).
  { unfold tagSchemaName. rewrite Hsplit.
    by rewrite tagSchemaName_loop_skip. }
  split; [done|].
  split.
  - intros Hreg. rewrite (schemaByTag_named _ "" r) by done. by rewrite Hreg.
  - intros s Hreg. rewrite (schemaByTag_named _ "" r) by done. by rewrite Hreg.
Qed.

(** *** The walk over the fields, when every call it makes gives a map *)

Lemma schemaByTag_run (tag : string) (schk : SHA256) (c : Container) :
  (schemaByTag tag c).1 = Some (schk, None) →
  schemaByTag tag c = (Some (schk, None), c).
Proof.
  intros Hs. pose proof (readonly_schemaByTag tag c) as Hc.
  destruct (schemaByTag tag c) as [v c']. cbn in *. by subst.
Qed.

Section walk.
Variable want_rec : SHA256 → SHA256 → M want_result.
(** What the call for a pair gives. *)
Variable found : SHA256 * SHA256 → gset SHA256.
Variable c : Container.

Lemma want_merge_gives (schk ref : SHA256) (w : gset SHA256) :
  gives want_rec found c (schk, ref) →
  want_merge want_rec schk ref w c = (Some (Next (w ∪ found (schk, ref))), c).
Proof.
  intros Hg. unfold want_merge.
  by rewrite (bind_run _ _ c c (Some (found (schk, ref)), None)).
Qed.

Lemma want_refs_gives (schk : SHA256) (refs : list SHA256)
    (w : gset SHA256) :
  Forall (gives want_rec found c) (pair schk <$> refs) →
  want_refs want_rec schk refs w c =
    (Some (Next (w ∪ ⋃ (found <$> (pair schk <$> refs)))), c).
Proof.
  revert w. induction refs as [|ref refs IH]; intros w Hall; cbn.
  - unfold ret. by rewrite (right_id_L ∅ (∪)).
  - apply Forall_cons in Hall as [Hg Hall].
    rewrite (bind_run _ _ c c (Next (w ∪ found (schk, ref))))
      by by apply want_merge_gives.
    rewrite IH by done. by rewrite (assoc_L (∪)).
Qed.

Lemma want_field_gives (objd : bytes) (fields : list StructField)
    (sf : StructField) (ps : list (SHA256 * SHA256)) (w : gset SHA256) :
  field_refs c objd fields sf = Some ps →
  Forall (gives want_rec found c) ps →
  want_field want_rec objd fields sf w c =
    (Some (Next (w ∪ ⋃ (found <$> ps))), c).
Proof.
  unfold field_refs, want_field.
  destruct (negb _).
  { intros [= <-] _. cbn. unfold ret. by rewrite (right_id_L ∅ (∪)). }
  destruct (String.eqb _ hrefTypeName).
  { destruct (DeserializeField_SHA256 _ _ _) as [ref|]; [|done].
    destruct (schemaByTag _ c).1 as [[schk [e|]]|] eqn:Hs; try done.
    intros [= <-] [Hg _]%Forall_cons.
    rewrite (bind_run _ _ c c (schk, None)) by by apply schemaByTag_run.
    rewrite want_merge_gives by done.
    cbn. by rewrite (right_id_L ∅ (∪)). }
  destruct (String.eqb _ hrefArrayTypeName).
  { destruct (DeserializeField_SHA256s _ _ _) as [refs|]; [|done].
    destruct (schemaByTag _ c).1 as [[schk [e|]]|] eqn:Hs; try done.
    intros [= <-] Hall.
    rewrite (bind_run _ _ c c (schk, None)) by by apply schemaByTag_run.
    by apply want_refs_gives. }
  destruct (String.eqb _ dynamicHrefTypeName); [|done].
  destruct (DeserializeField_DynamicHref _ _ _) as [dh|]; [|done].
  intros [= <-] [Hg _]%Forall_cons.
  rewrite want_merge_gives by done.
  cbn. by rewrite (right_id_L ∅ (∪)).
Qed.

Lemma want_fields_gives (objd : bytes) (fields rest : list StructField)
    (ps : list (SHA256 * SHA256)) (w : gset SHA256) :
  fields_refs c objd fields rest = Some ps →
  Forall (gives want_rec found c) ps →
  want_fields want_rec objd fields rest w c =
    (Some (Next (w ∪ ⋃ (found <$> ps))), c).
Proof.
  revert ps w. induction rest as [|sf rest IH]; intros ps w; cbn.
  - intros [= <-] _. cbn. unfold ret. by rewrite (right_id_L ∅ (∪)).
  - destruct (field_refs c objd fields sf) as [qs|] eqn:Hq; [|done].
    destruct (fields_refs c objd fields rest) as [rs|] eqn:Hr; [|done].
    intros [= <-] [Hqs Hrs]%Forall_app.
    rewrite (bind_run _ _ c c (Next (w ∪ ⋃ (found <$> qs))))
      by by apply want_field_gives.
    rewrite (IH rs) by done.
    by rewrite fmap_app, union_list_app_L, (assoc_L (∪)).
Qed.

End walk.

(** [want] on a pair whose entries are both in the store gives the union
    of what it gives on the references of the pair. *)
Lemma want_node (fuel : nat) (schk objk : SHA256)
    (ps : list (SHA256 * SHA256)) (found : SHA256 * SHA256 → gset SHA256)
    (c : Container) :
  node_refs c schk objk = Some ps →
  Forall (gives (want fuel) found c) ps →
  want (S fuel) schk objk c = (Some (Some (⋃ (found <$> ps)), None), c).
Proof.
  unfold node_refs, data.Get.
  destruct (data.data (db c) !! schk) as [schd|] eqn:Hs; [|done].
  destruct (data.data (db c) !! objk) as [objd|] eqn:Ho; [|done].
  intros Hn Hall. rewrite (want_both_present _ _ _ schd objd) by done.
  destruct (DeserializeRaw schd) as [s|e]; [|done].
  rewrite (bind_run _ _ c c (Next (∅ ∪ ⋃ (found <$> ps))))
    by by apply want_fields_gives.
  unfold ret. by rewrite (left_id_L ∅ (∪)).
Qed.

Lemma union_list_empty (ps : list (SHA256 * SHA256)) :
  ⋃ ((λ _, ∅) <$> ps) = (∅ : gset SHA256).
Proof.
  induction ps as [|p ps IH]; [done|]. cbn. by rewrite IH, (left_id_L ∅ (∪)).
Qed.

(** Completeness: when the whole graph below the pair is in the store,
    [want] returns, with the empty map and no error, on every budget that
    covers the depth of the graph. *)
Lemma want_graph_present (depth : nat) :
  ∀ (fuel : nat) (schk objk : SHA256) (c : Container),
    graph_present depth c schk objk = true →
    (depth ≤ fuel)%nat →
    want fuel schk objk c = (Some (Some ∅, None), c).
Proof.
  induction depth as [|depth IH]; intros fuel schk objk c Hg Hle; [done|].
  destruct fuel as [|fuel]; [lia|].
  cbn [graph_present] in Hg.
  destruct (node_refs c schk objk) as [ps|] eqn:Hn; [|done].
  rewrite (want_node fuel schk objk ps (λ _, ∅)); [|done|].
  - by rewrite union_list_empty.
  - clear Hn. induction ps as [|p ps IHps]; [done|].
    cbn in Hg. apply andb_prop in Hg as [Hp Hps].
    constructor; [|by apply IHps].
    unfold gives. apply IH; [done | lia].
Qed.

(** *** A schema with one plain reference *)

Lemma field_refs_no_href (c : Container) (objd : bytes)
    (fields : list StructField) (sf : StructField) :
  gostrings.Contains (skyobjectTag sf) "href" = false →
  field_refs c objd fields sf = Some [].
Proof. intros Hn. unfold field_refs. by rewrite Hn. Qed.

Lemma fields_refs_no_href (c : Container) (objd : bytes)
    (fields rest : list StructField) :
  Forall (λ sf, gostrings.Contains (skyobjectTag sf) "href" = false) rest →
  fields_refs c objd fields rest = Some [].
Proof.
  induction 1 as [|sf rest Hsf _ IH]; [done|].
  cbn. by rewrite field_refs_no_href, IH.
Qed.

Lemma fields_refs_app (c : Container) (objd : bytes)
    (fields pre rest : list StructField) (ps : list (SHA256 * SHA256)) :
  Forall (λ sf, gostrings.Contains (skyobjectTag sf) "href" = false) pre →
  fields_refs c objd fields rest = Some ps →
  fields_refs c objd fields (pre ++ rest)%list = Some ps.
Proof.
  intros Hpre Hrest. induction Hpre as [|sf pre Hsf _ IH]; [done|].
  cbn. by rewrite field_refs_no_href, IH.
Qed.

Lemma field_refs_plain (c : Container) (r : Root) (objd : bytes)
    (fields : list StructField) (sf : StructField) (name : string)
    (schk ref : SHA256) :
  gostrings.Contains (skyobjectTag sf) "href" = true →
  Type_ sf = hrefTypeName →
  DeserializeField_SHA256 objd fields (Name sf) = Decoded ref →
  tagSchemaName (skyobjectTag sf) = (name, None) →
  root c = Some r →
  registry r !! name = Some schk →
  field_refs c objd fields sf = Some [(schk, ref)].
Proof.
  intros Hh Ht Hd Hn Hr Hreg. unfold field_refs.
  rewrite Hh, Ht, String.eqb_refl, Hd. cbn [negb].
  rewrite (schemaByTag_named _ name r) by done. by rewrite Hreg.
Qed.

(** The references of the root object of the scenario. *)
Lemma node_refs_one_plain (c : Container) (r : Root) (Sa Oa Sb Ob : SHA256)
    (sad oad : bytes) (scha : Schema) (pre post : list StructField)
    (sf : StructField) :
  root c = Some r →
  data.data (db c) !! Sa = Some sad →
  data.data (db c) !! Oa = Some oad →
  DeserializeRaw sad = Decoded scha →
  Fields scha = (pre ++ sf :: post)%list →
  Forall (λ f, gostrings.Contains (skyobjectTag f) "href" = false) pre →
  Forall (λ f, gostrings.Contains (skyobjectTag f) "href" = false) post →
  skyobjectTag sf = "href,schema=S2" →
  Type_ sf = hrefTypeName →
  DeserializeField_SHA256 oad (Fields scha) (Name sf) = Decoded Ob →
  registry r !! "S2" = Some Sb →
  node_refs c Sa Oa = Some [(Sb, Ob)].
Proof.
  intros Hr HSa HOa Hd Hf Hpre Hpost Htag Hty Hfd Hreg.
  unfold node_refs.
  rewrite (Get_lookup _ _ sad), (Get_lookup _ _ oad), Hd by done.
  rewrite Hf at 2. apply fields_refs_app; [done|].
  cbn [fields_refs].
  rewrite (field_refs_plain c r _ _ _ "S2" Sb Ob), fields_refs_no_href;
    try done; by rewrite Htag.
Qed.

Lemma node_refs_no_href (c : Container) (Sb Ob : SHA256) (sbd obd : bytes)
    (schb : Schema) :
  data.data (db c) !! Sb = Some sbd →
  data.data (db c) !! Ob = Some obd →
  DeserializeRaw sbd = Decoded schb →
  Forall (λ f, gostrings.Contains (skyobjectTag f) "href" = false)
    (Fields schb) →
  node_refs c Sb Ob = Some [].
Proof.
  intros HSb HOb Hd Hno. unfold node_refs.
  rewrite (Get_lookup _ _ sbd), (Get_lookup _ _ obd), Hd by done.
  by apply fields_refs_no_href.
Qed.

Lemma Add_new_lookup (d d' : data.DB) (k : SHA256) (b : bytes) :
  data.data d !! k = None →
  data.Add d k b = Done (None, d') →
  data.data d' = <[k := b]> (data.data d).
Proof.
  intros Hk. unfold data.Add, data.has. rewrite Hk.
  destruct (_ || _); [done|]. by intros [= <-].
Qed.

(** C3: a root whose schema S1 and object O1 are in the store, where the
    only field of S1 that is tagged as a reference is a plain one, tagged
    [href,schema=S2], that holds the hash O2 in O1, with the schema S2
    registered and in the store and O2 not in the store: [Want] gives
    exactly the map that holds O2, and no error; after O2 has been added
    (S2 having no field that is tagged as a reference) [Want] gives the
    empty map and no error.  And in general, when every schema and every
    object that can be reached from the root is in the store, [Want]
    gives the empty map and no error.  Each time [Want] returns on every
    budget that covers the depth of the graph. *)
Theorem Want_plain_reference_and_complete :
  (∀ (c : Container) (r : Root) (O2 S2 : SHA256) (s1d o1d s2d : bytes)
     (sch1 sch2 : Schema) (pre post : list StructField) (sf : StructField),
     root c = Some r →
     data.data (db c) !! Root_Schema r = Some s1d →
     data.data (db c) !! Root_Root r = Some o1d →
     DeserializeRaw s1d = Decoded sch1 →
     Fields sch1 = (pre ++ sf :: post)%list →
     Forall (λ f, gostrings.Contains (skyobjectTag f) "href" = false) pre →
     Forall (λ f, gostrings.Contains (skyobjectTag f) "href" = false) post →
     skyobjectTag sf = "href,schema=S2" →
     Type_ sf = hrefTypeName →
     DeserializeField_SHA256 o1d (Fields sch1) (Name sf) = Decoded O2 →
     registry r !! "S2" = Some S2 →
     data.data (db c) !! S2 = Some s2d →
     data.data (db c) !! O2 = None →
     (∀ fuel, Want (2 + fuel) c = (Some (Some {[O2]}, None), c)) ∧
     (∀ (o2d : bytes) (d' : data.DB) (fuel : nat),
        DeserializeRaw s2d = Decoded sch2 →
        Forall (λ f, gostrings.Contains (skyobjectTag f) "href" = false)
          (Fields sch2) →
        data.Add (db c) O2 o2d = Done (None, d') →
        Want (2 + fuel) {| db := d'; root := Some r |}
        = (Some (Some ∅, None), {| db := d'; root := Some r |}))) ∧
  (∀ (c : Container) (r : Root) (depth fuel : nat),
     root c = Some r →
     graph_present depth c (Root_Schema r) (Root_Root r) = true →
     (depth ≤ fuel)%nat →
     Want fuel c = (Some (Some ∅, None), c)).
Proof.
  split.
  - intros c r O2 S2 s1d o1d s2d sch1 sch2 pre post sf
      Hr HS1 HO1 Hd1 Hf Hpre Hpost Htag Hty Hfd Hreg HS2 HO2.
    split.
    + intros fuel. unfold Want, bind, read_root. rewrite Hr.
      cbn [Nat.add].
      rewrite (want_node _ _ _ [(S2, O2)] (λ _, {[O2]})).
      * cbn. by rewrite (right_id_L ∅ (∪)).
      * by eapply node_refs_one_plain.
      * constructor; [|done]. unfold gives. cbn.
        by apply (want_object_absent _ _ _ s2d).
    + intros o2d d' fuel Hd2 Hno Hadd.
      apply Add_new_lookup in Hadd; [|done].
      set (c' := {| db := d'; root := Some r |}).
      assert (Hkeep : ∀ k v, data.data (db c) !! k = Some v →
                             data.data (db c') !! k = Some v).
      { intros k v Hk. cbn. rewrite Hadd.
        rewrite lookup_insert_ne; [done|]. intros <-. congruence. }
      unfold Want, bind, read_root. cbn [root c'].
      apply (want_graph_present 2); [|lia].
      cbn [graph_present].
      rewrite (node_refs_one_plain c' r _ _ S2 O2 s1d o1d sch1 pre post sf)
        by auto.
      cbn [forallb fst snd].
      rewrite (node_refs_no_href c' S2 O2 s2d o2d sch2); auto.
      cbn. rewrite Hadd. apply lookup_insert_eq.
  - intros c r depth fuel Hr Hg Hle.
    unfold Want, bind, read_root. rewrite Hr.
    by apply (want_graph_present depth).
Qed.

End resolver_facts.

(** ** The properties at the small instances *)

Section at_demo.
Import skyobject.
#[local] Existing Instance demo.encoder.
#[local] Existing Instance demo.reflect.

Lemma want_shallow_gap_witness :
  want 1 9%N demo.O1
    demo.container_with_O2
  = (Some (Some {[9%N]}, None), demo.container_with_O2).
Proof.
  apply (want_shallow_gap
           0 9%N demo.O1 demo.container_with_O2).
  reflexivity.
Defined.

Lemma want_undecodable_schema_witness :
  want 1 5%N 23%N
    demo.container_bad_schema
  = (Some (Some ∅, Some (ErrEncoder "not a schema")),
     demo.container_bad_schema).
Proof.
  apply (want_undecodable_schema
           0 5%N 23%N (mk_bytes [Byte.x04]) (mk_bytes [Byte.x16]));
    reflexivity.
Defined.

Lemma Want_no_root_witness :
  Want 0
    (NewContainer data.NewDB)
  = (Some (None, None), NewContainer data.NewDB).
Proof.
  apply (Want_no_root 0 (NewContainer data.NewDB)). reflexivity.
Defined.

(** C8, as it is stated, fails on the container without a root: what
    [Want] gives is not an empty map that is present. *)
Lemma Want_no_root_counterexample :
  root (NewContainer data.NewDB) = None ∧
  (Want 1
     (NewContainer data.NewDB)).1 ≠ Some (Some ∅, None).
Proof. split; [reflexivity | discriminate]. Qed.

Lemma schemaByTag_empty_name_witness :
  tagSchemaName "href,schema=" = ("", None) ∧
  (registry demo.R1 !! "" = None →
   schemaByTag "href,schema=" demo.container_with_O2
   = (Some (zeroSHA256, Some (ErrUnregisteredSchema "")),
      demo.container_with_O2)) ∧
  (∀ s, registry demo.R1 !! "" = Some s →
   schemaByTag "href,schema=" demo.container_with_O2
   = (Some (s, None), demo.container_with_O2)).
Proof.
  apply (schemaByTag_empty_name "href,schema=" ["href"] [] demo.R1
           demo.container_with_O2).
  - reflexivity.
  - repeat constructor.
  - reflexivity.
Defined.

(** C10, as it is stated, fails in two places: when the root registers a
    schema under the empty name, [schemaByTag] on the tag
    ["href,schema="] gives that hash and no error; and a tag that has the
    piece ["schema="] after another piece that names a schema gives that
    other name. *)
Lemma schemaByTag_empty_name_counterexample :
  root demo.container_empty_name ≠ None ∧
  tagSchemaName "href,schema=" = ("", None) ∧
  schemaByTag "href,schema=" demo.container_empty_name
    = (Some (7%N, None), demo.container_empty_name) ∧
  (∀ name, schemaByTag "href,schema=" demo.container_empty_name
           ≠ (Some (zeroSHA256, Some (ErrUnregisteredSchema name)),
              demo.container_empty_name)) ∧
  "schema=" ∈ gostrings.Split "schema=a,schema=" ","%char ∧
  tagSchemaName "schema=a,schema=" = ("a", None).
Proof.
  split; [discriminate|]. split; [reflexivity|]. split; [reflexivity|].
  split; [intros name; vm_compute; discriminate|].
  split; [|reflexivity].
  cbn. apply list_elem_of_further, list_elem_of_here.
Qed.

Lemma Want_plain_reference_and_complete_witness :
  Want 2 demo.container_without_O2
    = (Some (Some {[demo.O2]}, None), demo.container_without_O2) ∧
  Want 2 demo.container_with_O2
    = (Some (Some ∅, None), demo.container_with_O2) ∧
  Want 5 demo.container_with_O2
    = (Some (Some ∅, None), demo.container_with_O2).
Proof.
  destruct Want_plain_reference_and_complete as [Hscenario Hcomplete].
  destruct (Hscenario demo.container_without_O2 demo.R1 demo.O2 demo.S2
              (mk_bytes [Byte.x01]) (mk_bytes [Byte.x16])
              (mk_bytes [Byte.x02]) demo.schema_one demo.schema_two
              [ {| Name := "Title"; Type_ := "string"; Tag := "" |} ] []
              {| Name := "Next"; Type_ := "cipher.SHA256";
                 Tag := "href,schema=S2" |})
    as [Hbefore Hafter]; try reflexivity.
  - repeat constructor.
  - constructor.
  - split; [exact (Hbefore 0%nat)|]. split.
    + apply (Hafter (mk_bytes [Byte.x15]) demo.store_with_O2 0%nat);
        [reflexivity | repeat constructor | reflexivity].
    + apply (Hcomplete demo.container_with_O2 demo.R1 2%nat 5%nat);
        [reflexivity | reflexivity | lia].
Defined.

(** Three roots in turn, the latest in the middle. *)
Example SetRoot_all_keeps_latest :
  root (SetRoot_all (NewContainer data.NewDB)
          [demo.root_at 3; demo.root_at 7; demo.root_at 5])
  = Some (demo.root_at 7).
Proof. reflexivity. Qed.

Lemma SetRoot_monotonic_witness :
  latest_of None [demo.root_at 3; demo.root_at 7; demo.root_at 5]
    (root (SetRoot_all (NewContainer data.NewDB)
             [demo.root_at 3; demo.root_at 7; demo.root_at 5])).
Proof.
  exact (proj2 SetRoot_monotonic (NewContainer data.NewDB)
           [demo.root_at 3; demo.root_at 7; demo.root_at 5]).
Defined.

(** The pieces of a tag, and the names that [tagSchemaName] reads. *)
Example Split_pieces :
  gostrings.Split ",a,,b," ","%char = [""; "a"; ""; "b"; ""] ∧
  gostrings.Split "" ","%char = [""] ∧
  gostrings.Split "schema=" "="%char = ["schema"; ""].
Proof. repeat split. Qed.

Example tagSchemaName_cases :
  tagSchemaName "href,schema=S2" = ("S2", None) ∧
  tagSchemaName "href" = ("", Some ErrMissingSchemaName) ∧
  tagSchemaName "href,schema==" = ("", Some (ErrInvalidSchemaTag "schema==")) ∧
  tagSchemaName "href,schema=" = ("", None).
Proof. repeat split. Qed.

(** With too small a budget the walk of the two-level graph does not
    finish. *)
Example Want_budget :
  (Want 1 demo.container_with_O2).1 = None ∧
  (Want 2 demo.container_with_O2).1 = Some (Some ∅, None).
Proof. split; reflexivity. Qed.

End at_demo.

(** * More of the store *)

Section store_facts.
Context `{Cipher}.

Lemma Update_returns (d d' : data.DB) (b : bytes) (k : SHA256) :
  data.Update d b = Done (k, d') →
  k = data.createKey b ∧ k ≠ zeroSHA256 ∧ bytes_is_nil b = false ∧
  data.data d' = <[k := b]> (data.data d).
Proof.
  unfold data.Update.
  destruct (data.createKey b =? zeroSHA256)%N eqn:Hk; [done|].
  destruct (bytes_is_nil b) eqn:Hb; [done|]. cbn.
  intros [= <- <-]. by apply N.eqb_neq in Hk.
Qed.

Lemma Add_returns (d d' : data.DB) (k : SHA256) (v : bytes)
    (e : option error) :
  data.Add d k v = Done (e, d') →
  k ≠ zeroSHA256 ∧ bytes_is_nil v = false ∧
  ((is_Some (data.data d !! k) ∧ e = Some (ErrKeyAlreadyPresent k) ∧ d' = d) ∨
   (data.data d !! k = None ∧ e = None ∧
    data.data d' = <[k := v]> (data.data d))).
Proof.
  unfold data.Add, data.has.
  destruct (k =? zeroSHA256)%N eqn:Hk; [done|].
  destruct (bytes_is_nil v) eqn:Hv; [done|]. cbn.
  apply N.eqb_neq in Hk.
  destruct (data.data d !! k) as [old|] eqn:Hold; intros [= <- <-].
  - split; [done|]. split; [done|]. left. by eauto.
  - split; [done|]. split; [done|]. by right.
Qed.

(** X1: [Update] writes under its key only: every other key reads as
    before, and no key that the store has is lost. *)
Theorem Update_other_keys (d d' : data.DB) (b : bytes) (k k' : SHA256) :
  data.Update d b = Done (k, d') →
  (k' ≠ k → data.Get d' k' = data.Get d k') ∧
  (data.Has d k' = true → data.Has d' k' = true).
Proof.
  intros (-> & _ & _ & Hd')%Update_returns.
  unfold data.Get, data.Has, data.has. rewrite Hd'. split.
  - intros Hne. by rewrite lookup_insert_ne.
  - destruct (decide (data.createKey b = k')) as [->|Hne].
    + by rewrite lookup_insert_eq.
    + by rewrite lookup_insert_ne.
Qed.

(** X2: [Add] never changes or removes an entry of the store: whatever
    was stored under a key is still stored under it afterwards, keys
    other than its own read as before, and it reports an error exactly
    when its key was in the store. *)
Theorem Add_keeps_entries (d d' : data.DB) (k : SHA256) (v : bytes)
    (e : option error) :
  data.Add d k v = Done (e, d') →
  (∀ k' v', data.data d !! k' = Some v' → data.data d' !! k' = Some v') ∧
  (∀ k', k' ≠ k → data.Get d' k' = data.Get d k') ∧
  (e = None ↔ data.data d !! k = None).
Proof.
  intros (_ & _ & [(Hsome & -> & ->)|(Hnone & -> & Hd')])%Add_returns.
  - split; [done|]. split; [done|].
    split; [done|]. intros Hn. rewrite Hn in Hsome. by destruct Hsome.
  - split; [|split; [|done]].
    + intros k' v' Hk'. rewrite Hd', lookup_insert_ne; [done|].
      intros <-. congruence.
    + intros k' Hne. unfold data.Get. by rewrite Hd', lookup_insert_ne.
Qed.

(** X3: after an [Update] or an [Add] that stored a payload under a key,
    every later [Add] under that key (with a payload that is not nil)
    reports "key already present" and leaves the store as it is. *)
Theorem Add_after_store (d d1 : data.DB) (k : SHA256) (b v : bytes) :
  data.Update d b = Done (k, d1) ∨ data.Add d k b = Done (None, d1) →
  bytes_is_nil v = false →
  data.Add d1 k v = Done (Some (ErrKeyAlreadyPresent k), d1) ∧
  data.Get d1 k = (b, true).
Proof.
  intros Hstored Hv.
  assert (Hk : k ≠ zeroSHA256 ∧ data.data d1 !! k = Some b).
  { destruct Hstored as [Hu|Ha].
    - apply Update_returns in Hu as (_ & Hk & _ & ->).
      split; [done|]. apply lookup_insert_eq.
    - apply Add_returns in Ha as (Hk & _ & [(_ & [=] & _)|(_ & _ & ->)]).
      split; [done|]. apply lookup_insert_eq. }
  destruct Hk as [Hk Hl]. split; [|by apply Get_lookup].
  apply N.eqb_neq in Hk. unfold data.Add, data.has.
  by rewrite Hk, Hv, Hl.
Qed.

(** X4: in a store built from [NewDB] by [Update] and [Add], no entry is
    under the zero key and no payload is nil; so [Get] gives nil bytes
    exactly for the keys the store does not have. *)
Theorem built_no_zero_no_nil (d : data.DB) :
  built d →
  (∀ k v, data.data d !! k = Some v →
          k ≠ zeroSHA256 ∧ bytes_is_nil v = false) ∧
  (∀ k, bytes_is_nil (data.Get d k).1 = negb (data.Get d k).2).
Proof.
  intros Hb.
  assert (Hinv : ∀ k v, data.data d !! k = Some v →
                        k ≠ zeroSHA256 ∧ bytes_is_nil v = false).
  { induction Hb as [|d d' b k0 _ IH Hu|d d' k0 v0 e _ IH Ha]; intros k v.
    - cbn. by rewrite lookup_empty.
    - apply Update_returns in Hu as (_ & Hk0 & Hb0 & ->).
      rewrite lookup_insert. case_decide as Hk.
      + subst k0. by intros [= <-].
      + apply IH.
    - apply Add_returns in Ha as (Hk0 & Hv0 & [(_ & _ & ->)|(_ & _ & ->)]);
        [apply IH|].
      rewrite lookup_insert. case_decide as Hk.
      + subst k0. by intros [= <-].
      + apply IH. }
  split; [done|]. intros k. unfold data.Get.
  destruct (data.data d !! k) as [v|] eqn:Hk; [|done].
  cbn. by apply Hinv in Hk as [_ ->].
Qed.


End store_facts.

Section store_scans.
Context `{Cipher}.

Lemma Memory_insert_fresh (m : gmap SHA256 bytes) (k : SHA256) (v : bytes) :
  m !! k = None →
  map_fold (λ _ v acc, acc + len v) 0 (<[k := v]> m)
  = map_fold (λ _ v acc, acc + len v) 0 m + len v.
Proof.
  intros Hk.
  rewrite (map_fold_insert_L (λ _ v acc, acc + len v) 0 k v m); [done| |done].
  intros. lia.
Qed.

Lemma Memory_insert_over (m : gmap SHA256 bytes) (k : SHA256)
    (old v : bytes) :
  m !! k = Some old →
  map_fold (λ _ v acc, acc + len v) 0 (<[k := v]> m) + len old
  = map_fold (λ _ v acc, acc + len v) 0 m + len v.
Proof.
  intros Hk.
  rewrite <- (insert_delete_id m k old) at 2 by done.
  rewrite <- (insert_delete_eq m k v).
  rewrite !Memory_insert_fresh by apply lookup_delete_eq. lia.
Qed.

(** X6: the count and the memory of [Statistic] follow the writes: a
    payload stored under a new key adds one to the total and its length
    to the memory; an [Update] over a key the store has keeps the total
    and replaces the length of the old payload by that of the new one. *)
Theorem Statistic_after_store (d d' : data.DB) (k : SHA256) (b : bytes) :
  data.Update d b = Done (k, d') ∨ data.Add d k b = Done (None, d') →
  match data.data d !! k with
  | None =>
      data.Total (data.Statistic_of d') = S (data.Total (data.Statistic_of d)) ∧
      data.Memory (data.Statistic_of d')
      = data.Memory (data.Statistic_of d) + len b
  | Some old =>
      data.Total (data.Statistic_of d') = data.Total (data.Statistic_of d) ∧
      data.Memory (data.Statistic_of d') + len old
      = data.Memory (data.Statistic_of d) + len b
  end.
Proof.
  intros Hstored.
  assert (Hd' : data.data d' = <[k := b]> (data.data d)).
  { destruct Hstored as [Hu|Ha].
    - by apply Update_returns in Hu as (_ & _ & _ & ->).
    - by apply Add_returns in Ha as (_ & _ & [(_ & [=] & _)|(_ & _ & ->)]). }
  unfold data.Statistic_of. cbn. rewrite Hd'.
  destruct (data.data d !! k) as [old|] eqn:Hk.
  - split; [by apply map_size_insert_Some | by apply Memory_insert_over].
  - split; [by apply map_size_insert_None | by apply Memory_insert_fresh].
Qed.

Lemma Where_fold (q : SHA256 → bytes → bool) (l : list (SHA256 * bytes))
    (acc : list SHA256) :
  fold_left (λ result kv, if q kv.1 kv.2 then (result ++ [kv.1])%list
                          else result) l acc
  = (acc ++ (filter (λ kv, q kv.1 kv.2 = true) l).*1)%list.
Proof.
  revert acc. induction l as [|[k v] l IH]; intros acc.
  - cbn. by rewrite app_nil_r.
  - cbn [fold_left fst snd]. rewrite IH, filter_cons. cbn [fst snd].
    destruct (q k v) eqn:Hq.
    + rewrite decide_True by done. cbn. by rewrite <- app_assoc.
    + by rewrite decide_False.
Qed.

(** X7: [Where] gives exactly the keys of the entries that the predicate
    accepts, each of them once; so it gives no more keys than the store
    has entries. *)
Theorem Where_keys (d : data.DB) (q : SHA256 → bytes → bool) :
  NoDup (data.Where d q) ∧
  (∀ k, k ∈ data.Where d q ↔
        ∃ v, data.data d !! k = Some v ∧ q k v = true) ∧
  (length (data.Where d q) ≤ data.Total (data.Statistic_of d))%nat.
Proof.
  unfold data.Where. rewrite Where_fold. cbn [app].
  assert (Hsub : sublist
            (filter (λ kv : SHA256 * bytes, q kv.1 kv.2 = true)
               (map_to_list (data.data d))).*1
            (map_to_list (data.data d)).*1).
  { apply fmap_sublist, sublist_filter. }
  split; [|split].
  - exact (sublist_NoDup _ _ (NoDup_fst_map_to_list (data.data d)) Hsub).
  - intros k. rewrite list_elem_of_fmap. split.
    + intros ([k' v] & -> & [Hq Hin]%list_elem_of_filter). cbn in *.
      exists v. split; [by apply elem_of_map_to_list|done].
    + intros (v & Hk & Hq). exists (k, v). split; [done|].
      apply list_elem_of_filter. split; [done|].
      by apply elem_of_map_to_list.
  - apply sublist_length in Hsub. rewrite Hsub.
    unfold data.Statistic_of. cbn.
    by rewrite length_fmap, length_map_to_list.
Qed.

End store_scans.

(** * More of the root *)

Section root_more.
Import skyobject.

(** X8: the time of the root that is retained after a sequence of
    [SetRoot] calls does not depend on the order of the calls. *)
Theorem SetRoot_all_order (c : Container) (rs rs' : list Root) :
  rs ≡ₚ rs' →
  Time <$> root (SetRoot_all c rs) = Time <$> root (SetRoot_all c rs').
Proof.
  intros Hperm.
  pose proof (SetRoot_all_latest rs c) as Hl.
  pose proof (SetRoot_all_latest rs' c) as Hl'.
  destruct (root (SetRoot_all c rs)) as [r|],
           (root (SetRoot_all c rs')) as [r'|]; cbn in *.
  - destruct Hl as (Hin & Hfirst & Hrest), Hl' as (Hin' & Hfirst' & Hrest').
    f_equal. apply Z.le_antisymm.
    + destruct Hin as [Hin|Hin]; [by apply Hfirst'|].
      apply Hrest'. by rewrite <- Hperm.
    + destruct Hin' as [Hin'|Hin']; [by apply Hfirst|].
      apply Hrest. by rewrite Hperm.
  - destruct Hl' as [Hnone ->]. apply Permutation_nil_r in Hperm. subst rs.
    destruct Hl as ([Hin|Hin%elem_of_nil] & _); [congruence|done].
  - destruct Hl as [Hnone ->]. apply Permutation_nil_l in Hperm. subst rs'.
    destruct Hl' as ([Hin|Hin%elem_of_nil] & _); [congruence|done].
  - done.
Qed.

(** X9: [SetEncodedRoot] gives [(false, err)] and leaves the container
    as it is when the bytes do not decode; otherwise it gives no error,
    and its flag is true exactly when the decoded root has become the
    root of the container.  It never touches the store, and it panics
    only if [decodeRoot] gives neither a root nor an error. *)
Theorem SetEncodedRoot_results `{RootDecoder} (c : Container) (b : bytes) :
  match SetEncodedRoot c b with
  | Panic _ => decodeRoot b = (None, None)
  | Done ((ok, err), c') =>
      db c' = db c ∧
      (∀ e, err = Some e → (decodeRoot b).2 = Some e ∧ ok = false ∧ c' = c) ∧
      (err = None → ∃ r, decodeRoot b = (Some r, None) ∧
                         SetRoot c (Some r) = Done (ok, c')) ∧
      (ok = false → c' = c) ∧
      (ok = true → err = None ∧ (decodeRoot b).1 = root c')
  end.
Proof.
  unfold SetEncodedRoot.
  destruct (decodeRoot b) as [r [e|]] eqn:Hd.
  - split; [done|]. split; [by intros ? [= <-]|]. by repeat split.
  - destruct r as [r|]; [|done].
    assert (Hs : ∃ ok c', SetRoot c (Some r) = Done (ok, c') ∧
                          db c' = db c ∧ (ok = false → c' = c) ∧
                          (ok = true → root c' = Some r)).
    { unfold SetRoot. destruct (root c) as [held|]; [|by eexists _, _].
      destruct (Time held <? Time r)%Z; by eexists _, _. }
    destruct Hs as (ok & c' & Hs & Hdb & Hfalse & Htrue). rewrite Hs.
    split; [done|]. split; [done|].
    split; [intros _; by exists r|]. split; [done|].
    intros Hok. split; [done|]. cbn. by rewrite Htrue.
Qed.

End root_more.

(** * More of the resolver *)

Section resolver_more.
Import skyobject.
Context `{Encoder} `{Reflect}.

Lemma bind_inv {A B : Type} (m : M A) (f : A → M B) (c c2 : Container)
    (b : B) :
  bind m f c = (Some b, c2) →
  ∃ a c1, m c = (Some a, c1) ∧ f a c1 = (Some b, c2).
Proof.
  unfold bind. destruct (m c) as [[a|] c1]; [|done]. by exists a, c1.
Qed.

Lemma bind_flow_id (m : M flow) (c : Container) :
  bind m (λ fl, match fl with
                | Next w => ret (Next w)
                | GotoError e => ret (GotoError e)
                end) c = m c.
Proof. unfold bind. by destruct (m c) as [[[w|e]|] c1]. Qed.

Lemma bind_assoc {A B C : Type} (m : M A) (f : A → M B) (g : B → M C)
    (c : Container) :
  bind (bind m f) g c = bind m (λ a, bind (f a) g) c.
Proof. unfold bind. by destruct (m c) as [[a|] c1]. Qed.

Lemma bind_ext {A B : Type} (m : M A) (f g : A → M B) (c : Container) :
  (∀ a c1, f a c1 = g a c1) → bind m f c = bind m g c.
Proof. intros Hfg. unfold bind. by destruct (m c) as [[a|] c1]. Qed.

Lemma schemaByTag_returns (tag : string) (c : Container) :
  ∃ r, schemaByTag tag c = (Some r, c).
Proof.
  unfold schemaByTag. destruct (tagSchemaName tag) as [n [e|]]; [by eexists|].
  unfold bind, read_root.
  destruct (root c) as [r|]; [|by eexists].
  destruct (registry r !! n); by eexists.
Qed.

(** *** The walk over the fields is the sequence of its calls *)

Section walk_calls.
Variable want_rec : SHA256 → SHA256 → M want_result.
Hypothesis readonly_rec : ∀ schk objk, readonly (want_rec schk objk).

Lemma readonly_calls (ps : list (SHA256 * SHA256)) (w : gset SHA256) :
  readonly (calls want_rec ps w).
Proof.
  revert w. induction ps as [|p ps IH]; intros w; cbn.
  - apply readonly_ret.
  - apply readonly_bind; [by apply readonly_want_merge|].
    intros [w'|e]; [apply IH | apply readonly_ret].
Qed.

Lemma calls_app (qs rs : list (SHA256 * SHA256)) (w : gset SHA256)
    (c : Container) :
  calls want_rec (qs ++ rs) w c =
    bind (calls want_rec qs w)
      (λ fl, match fl with
             | Next w' => calls want_rec rs w'
             | GotoError e => ret (GotoError e)
             end) c.
Proof.
  revert w c. induction qs as [|q qs IH]; intros w c; [done|].
  cbn [app calls]. rewrite bind_assoc. apply bind_ext.
  intros [w'|e] c1; [apply IH | done].
Qed.

Lemma want_refs_calls (schk : SHA256) (refs : list SHA256)
    (w : gset SHA256) (c : Container) :
  want_refs want_rec schk refs w c = calls want_rec (pair schk <$> refs) w c.
Proof.
  revert w c. induction refs as [|ref refs IH]; intros w c; [done|].
  cbn [want_refs fmap list_fmap calls fst snd]. apply bind_ext.
  intros [w'|e] c1; [apply IH | done].
Qed.

Lemma want_field_calls (objd : bytes) (fields : list StructField)
    (sf : StructField) (ps : list (SHA256 * SHA256)) (w : gset SHA256)
    (c : Container) :
  field_refs c objd fields sf = Some ps →
  want_field want_rec objd fields sf w c = calls want_rec ps w c.
Proof.
  unfold field_refs, want_field.
  destruct (negb _); [by intros [= <-]|].
  destruct (String.eqb _ hrefTypeName).
  { destruct (DeserializeField_SHA256 _ _ _) as [ref|]; [|done].
    destruct (schemaByTag _ c).1 as [[schk [e|]]|] eqn:Hs; try done.
    intros [= <-].
    rewrite (bind_run _ _ c c (schk, None)) by by apply schemaByTag_run.
    cbn [calls fst snd]. by rewrite bind_flow_id. }
  destruct (String.eqb _ hrefArrayTypeName).
  { destruct (DeserializeField_SHA256s _ _ _) as [refs|]; [|done].
    destruct (schemaByTag _ c).1 as [[schk [e|]]|] eqn:Hs; try done.
    intros [= <-].
    rewrite (bind_run _ _ c c (schk, None)) by by apply schemaByTag_run.
    apply want_refs_calls. }
  destruct (String.eqb _ dynamicHrefTypeName); [|done].
  destruct (DeserializeField_DynamicHref _ _ _) as [dh|]; [|done].
  intros [= <-]. cbn [calls fst snd]. by rewrite bind_flow_id.
Qed.

Lemma want_fields_calls (objd : bytes) (fields rest : list StructField)
    (ps : list (SHA256 * SHA256)) (w : gset SHA256) (c : Container) :
  fields_refs c objd fields rest = Some ps →
  want_fields want_rec objd fields rest w c = calls want_rec ps w c.
Proof.
  revert ps w. induction rest as [|sf rest IH]; intros ps w.
  - by intros [= <-].
  - cbn [fields_refs want_fields].
    destruct (field_refs c objd fields sf) as [qs|] eqn:Hq; [|done].
    destruct (fields_refs c objd fields rest) as [rs|] eqn:Hr; [|done].
    intros [= <-]. rewrite calls_app. unfold bind.
    rewrite (want_field_calls _ _ _ qs) by done.
    pose proof (readonly_calls qs w c) as Hc.
    destruct (calls want_rec qs w c) as [[[w'|e]|] c1]; cbn in Hc; subst c1;
      [|done..].
    by apply IH.
Qed.

(** A field that gives no list of references sends the walk to
    [Error]. *)
Lemma want_field_no_refs (objd : bytes) (fields : list StructField)
    (sf : StructField) (w : gset SHA256) (c : Container) :
  field_refs c objd fields sf = None →
  ∃ e, want_field want_rec objd fields sf w c = (Some (GotoError e), c).
Proof.
  unfold field_refs, want_field.
  destruct (negb _); [done|].
  destruct (String.eqb _ hrefTypeName).
  { destruct (DeserializeField_SHA256 _ _ _) as [ref|e]; [|by eexists].
    destruct (schemaByTag_returns (skyobjectTag sf) c) as ([schk [e|]] & Hs);
      rewrite (bind_run _ _ c c _ Hs), ?Hs; [by eexists | done]. }
  destruct (String.eqb _ hrefArrayTypeName).
  { destruct (DeserializeField_SHA256s _ _ _) as [refs|e]; [|by eexists].
    destruct (schemaByTag_returns (skyobjectTag sf) c) as ([schk [e|]] & Hs);
      rewrite (bind_run _ _ c c _ Hs), ?Hs; [by eexists | done]. }
  destruct (String.eqb _ dynamicHrefTypeName); [|by eexists].
  destruct (DeserializeField_DynamicHref _ _ _) as [dh|e]; [done|by eexists].
Qed.

End walk_calls.

Section calls_facts.
Variable want_rec : SHA256 → SHA256 → M want_result.
Hypothesis readonly_rec : ∀ schk objk, readonly (want_rec schk objk).

Lemma want_fields_next (objd : bytes) (fields rest : list StructField)
    (w w' : gset SHA256) (c c' : Container) :
  want_fields want_rec objd fields rest w c = (Some (Next w'), c') →
  ∃ ps, fields_refs c objd fields rest = Some ps ∧
        calls want_rec ps w c = (Some (Next w'), c').
Proof.
  revert w. induction rest as [|sf rest IH]; intros w.
  - intros Hw. by exists [].
  - cbn [want_fields fields_refs].
    destruct (field_refs c objd fields sf) as [qs|] eqn:Hq.
    + intros (fl & c1 & Hf & Hk)%bind_inv.
      rewrite (want_field_calls _ _ _ _ qs) in Hf by done.
      pose proof (readonly_calls want_rec readonly_rec qs w c) as Hc.
      rewrite Hf in Hc. cbn in Hc. subst c1.
      destruct fl as [w1|e]; [|done].
      apply IH in Hk as (rs & -> & Hrs).
      exists (qs ++ rs)%list. split; [done|].
      rewrite calls_app. by rewrite (bind_run _ _ c c (Next w1)).
    + destruct (want_field_no_refs want_rec objd fields sf w c Hq) as [e He].
      by rewrite (bind_run _ _ c c (GotoError e)).
Qed.

Lemma want_fields_app (objd : bytes) (fields pre rest : list StructField)
    (w : gset SHA256) (c : Container) :
  want_fields want_rec objd fields (pre ++ rest) w c =
    bind (want_fields want_rec objd fields pre w)
      (λ fl, match fl with
             | Next w' => want_fields want_rec objd fields rest w'
             | GotoError e => ret (GotoError e)
             end) c.
Proof.
  revert w c. induction pre as [|sf pre IH]; intros w c; [done|].
  cbn [app want_fields]. rewrite bind_assoc. apply bind_ext.
  intros [w'|e] c1; [apply IH | done].
Qed.

Lemma calls_gives (found : SHA256 * SHA256 → gset SHA256)
    (ps : list (SHA256 * SHA256)) (w : gset SHA256) (c : Container) :
  Forall (gives want_rec found c) ps →
  calls want_rec ps w c = (Some (Next (w ∪ ⋃ (found <$> ps))), c).
Proof.
  revert w. induction ps as [|[s o] ps IH]; intros w Hall; cbn.
  - unfold ret. by rewrite (right_id_L ∅ (∪)).
  - apply Forall_cons in Hall as [Hg Hall].
    rewrite (bind_run _ _ c c (Next (w ∪ found (s, o))))
      by by apply want_merge_gives.
    rewrite IH by done. by rewrite (assoc_L (∪)).
Qed.

Lemma calls_stops (found : SHA256 * SHA256 → gset SHA256)
    (pre post : list (SHA256 * SHA256)) (p : SHA256 * SHA256)
    (wm : option (gset SHA256)) (e : error) (w : gset SHA256)
    (c : Container) :
  Forall (gives want_rec found c) pre →
  want_rec p.1 p.2 c = (Some (wm, Some e), c) →
  calls want_rec (pre ++ p :: post) w c = (Some (GotoError e), c).
Proof.
  intros Hpre Hp. rewrite calls_app.
  rewrite (bind_run _ _ c c (Next (w ∪ ⋃ (found <$> pre))))
    by by apply calls_gives.
  cbn [calls]. unfold want_merge.
  rewrite (bind_run _ _ c c (GotoError e)); [done|].
  by rewrite (bind_run _ _ c c (wm, Some e)).
Qed.

Lemma calls_exhausted (found : SHA256 * SHA256 → gset SHA256)
    (pre post : list (SHA256 * SHA256)) (p : SHA256 * SHA256)
    (w : gset SHA256) (c : Container) :
  Forall (gives want_rec found c) pre →
  (want_rec p.1 p.2 c).1 = None →
  (calls want_rec (pre ++ p :: post) w c).1 = None.
Proof.
  intros Hpre Hp. rewrite calls_app.
  rewrite (bind_run _ _ c c (Next (w ∪ ⋃ (found <$> pre))))
    by by apply calls_gives.
  cbn [calls]. unfold want_merge, bind.
  by destruct (want_rec p.1 p.2 c) as [[r|] c1].
Qed.

Lemma calls_absent (ps : list (SHA256 * SHA256)) (w w' : gset SHA256)
    (c c' : Container) :
  (∀ p wm, p ∈ ps → (want_rec p.1 p.2 c).1 = Some (Some wm, None) →
           all_absent c wm) →
  calls want_rec ps w c = (Some (Next w'), c') →
  all_absent c w → all_absent c w'.
Proof.
  revert w. induction ps as [|p ps IH]; intros w Hrec.
  - by intros [= <- <-].
  - cbn [calls]. intros (fl & c1 & Hm & Hk)%bind_inv Hw.
    pose proof (readonly_want_merge want_rec readonly_rec p.1 p.2 w c) as Hc.
    rewrite Hm in Hc. cbn in Hc. subst c1.
    destruct fl as [w1|e]; [|done].
    eapply (IH w1); [|exact Hk|].
    + intros q wm Hq. apply Hrec. by apply list_elem_of_further.
    + unfold want_merge in Hm.
      apply bind_inv in Hm as ([wm [e|]] & c1 & Hr & Hm); [done|].
      injection Hm as <- <-.
      destruct wm as [w0|]; [|done]. cbn.
      intros h [Hh|Hh]%elem_of_union; [by apply Hw|].
      eapply (Hrec p w0); [apply list_elem_of_here| |done].
      by rewrite Hr.
Qed.

End calls_facts.

(** With both entries in the store and a schema whose reference fields
    can all be read, [want] is the sequence of its calls. *)
Lemma want_as_calls (fuel : nat) (schk objk : SHA256)
    (ps : list (SHA256 * SHA256)) (c : Container) :
  node_refs c schk objk = Some ps →
  want (S fuel) schk objk c =
    bind (calls (want fuel) ps ∅)
      (λ fl, match fl with
             | Next w => ret (Some w, None)
             | GotoError e => ret (None, Some e)
             end) c.
Proof.
  unfold node_refs, data.Get.
  destruct (data.data (db c) !! schk) as [schd|] eqn:Hs; [|done].
  destruct (data.data (db c) !! objk) as [objd|] eqn:Ho; [|done].
  intros Hn. rewrite (want_both_present _ _ _ schd objd) by done.
  destruct (DeserializeRaw schd) as [s|e]; [|done].
  unfold bind. rewrite (want_fields_calls _ (readonly_want fuel) _ _ _ ps);
    done.
Qed.

(** What a call of [want] that gives a map and no error went through. *)
Lemma want_map_inv (fuel : nat) (schk objk : SHA256) (w : gset SHA256)
    (c c' : Container) :
  want (S fuel) schk objk c = (Some (Some w, None), c') →
  (data.data (db c) !! schk = None ∧
   w = (if data.has (db c) objk then {[schk]} else {[schk]} ∪ {[objk]})) ∨
  (is_Some (data.data (db c) !! schk) ∧ data.data (db c) !! objk = None ∧
   w = {[objk]}) ∨
  (∃ ps, node_refs c schk objk = Some ps ∧
         calls (want fuel) ps ∅ c = (Some (Next w), c)).
Proof.
  destruct (data.data (db c) !! schk) as [schd|] eqn:Hs.
  - destruct (data.data (db c) !! objk) as [objd|] eqn:Ho.
    + rewrite (want_both_present _ _ _ schd objd) by done.
      destruct (DeserializeRaw schd) as [s|e] eqn:Hd; [|done].
      intros (fl & c1 & Hf & Hk)%bind_inv.
      pose proof (readonly_want_fields _ (readonly_want fuel) objd
                    (Fields s) (Fields s) ∅ c) as Hc.
      rewrite Hf in Hc. cbn in Hc. subst c1.
      destruct fl as [w1|e]; [|done]. injection Hk as <- <-.
      apply want_fields_next in Hf as (ps & Hps & Hcalls);
        [|apply readonly_want].
      right. right. exists ps. split; [|done].
      unfold node_refs.
      by rewrite (Get_lookup _ _ schd), (Get_lookup _ _ objd), Hd.
    + rewrite (want_object_absent _ _ _ schd) by done.
      intros [= <- <-]. right. left. by eauto.
  - intros Hw. left. split; [done|]. unfold data.has.
    destruct (data.data (db c) !! objk) as [objd|] eqn:Ho.
    + rewrite (want_schema_absent_object_present _ _ _ objd) in Hw by done.
      by injection Hw as <- <-.
    + rewrite want_schema_absent_object_absent in Hw by done.
      by injection Hw as <- <-.
Qed.

(** X10: a map that [want] returns without an error holds only hashes
    that are not keys of the store. *)
Theorem want_only_missing (fuel : nat) :
  ∀ (schk objk : SHA256) (w : gset SHA256) (c : Container),
    (want fuel schk objk c).1 = Some (Some w, None) →
    ∀ h, h ∈ w → data.data (db c) !! h = None.
Proof.
  induction fuel as [|fuel IH]; intros schk objk w c Hw; [done|].
  assert (Hw' : want (S fuel) schk objk c = (Some (Some w, None), c)).
  { pose proof (readonly_want (S fuel) schk objk c) as Hc.
    destruct (want (S fuel) schk objk c) as [r c1]. cbn in *. by subst. }
  apply want_map_inv in Hw' as [(Hs & ->)|[(Hs & Ho & ->)|(ps & Hps & Hc)]].
  - unfold data.has. destruct (data.data (db c) !! objk) eqn:Ho.
    + by intros h ->%elem_of_singleton.
    + by intros h [->%elem_of_singleton| ->%elem_of_singleton]%elem_of_union.
  - by intros h ->%elem_of_singleton.
  - apply (calls_absent (want fuel) (readonly_want fuel) ps ∅ w c c);
      [|done|by intros h ?%elem_of_empty].
    intros p wm _ Hp h Hh. by apply (IH p.1 p.2 wm).
Qed.

Lemma want_run (fuel : nat) (schk objk : SHA256) (c : Container)
    (r : option want_result) :
  (want fuel schk objk c).1 = r → want fuel schk objk c = (r, c).
Proof.
  intros Hr. pose proof (readonly_want fuel schk objk c) as Hc.
  destruct (want fuel schk objk c) as [r1 c1]. cbn in *. by subst.
Qed.

(** X11: an error of [want] comes with the nil map, except when the
    schema entry of the call itself does not decode: then, and only
    then, the error comes with a map, and that map is empty. *)
Theorem want_error_map (fuel : nat) (schk objk : SHA256)
    (wm : option (gset SHA256)) (e : error) (c : Container) :
  (want fuel schk objk c).1 = Some (wm, Some e) →
  wm = None ∨
  (wm = Some ∅ ∧
   ∃ schd objd, data.data (db c) !! schk = Some schd ∧
                data.data (db c) !! objk = Some objd ∧
                DeserializeRaw schd = DecodeFailed e).
Proof.
  intros Hw%want_run. destruct wm as [w|]; [right|by left].
  destruct fuel as [|fuel]; [done|].
  destruct (data.data (db c) !! schk) as [schd|] eqn:Hs.
  - destruct (data.data (db c) !! objk) as [objd|] eqn:Ho.
    + rewrite (want_both_present _ _ _ schd objd) in Hw by done.
      destruct (DeserializeRaw schd) as [s|e'] eqn:Hd.
      * apply bind_inv in Hw as ([w'|e'] & c1 & _ & Hk); by injection Hk.
      * injection Hw as <- <-. split; [done|]. by exists schd, objd.
    + by rewrite (want_object_absent _ _ _ schd) in Hw.
  - destruct (data.data (db c) !! objk) as [objd|] eqn:Ho.
    + by rewrite (want_schema_absent_object_present _ _ _ objd) in Hw.
    + by rewrite want_schema_absent_object_absent in Hw.
Qed.

(** X12: when both entries are in the store and every reference field
    of the schema can be read, [want] returns the union of the maps that
    its calls for the references return, so a hash wanted along two
    paths is in the result once. *)
Theorem want_union_of_calls (fuel : nat) (schk objk : SHA256)
    (ps : list (SHA256 * SHA256)) (found : SHA256 * SHA256 → gset SHA256)
    (c : Container) :
  node_refs c schk objk = Some ps →
  Forall (λ p, want fuel p.1 p.2 c = (Some (Some (found p), None), c)) ps →
  want (S fuel) schk objk c = (Some (Some (⋃ (found <$> ps)), None), c).
Proof. intros Hn Hall. by apply want_node. Qed.

(** X13: when the schema is in the store and the object is not, [want]
    returns the map that holds the object hash alone, and no error; the
    schema bytes are not decoded, so this holds whatever they are. *)
Theorem want_object_missing (fuel : nat) (schk objk : SHA256)
    (schd : bytes) (c : Container) :
  data.data (db c) !! schk = Some schd →
  data.data (db c) !! objk = None →
  want (S fuel) schk objk c = (Some (Some {[objk]}, None), c).
Proof. intros Hs Ho. by apply (want_object_absent _ _ _ schd). Qed.

(** X14: a field whose tag marks it as a reference and whose declared
    type is none of the three reference types makes [want] fail with
    "unexpected href tag" and the nil map, once the fields before it
    have been walked without an error. *)
Theorem want_unexpected_type (fuel : nat) (schk objk : SHA256)
    (schd objd : bytes) (s : Schema) (pre post : list StructField)
    (sf : StructField) (ps : list (SHA256 * SHA256))
    (found : SHA256 * SHA256 → gset SHA256) (c : Container) :
  data.data (db c) !! schk = Some schd →
  data.data (db c) !! objk = Some objd →
  DeserializeRaw schd = Decoded s →
  Fields s = (pre ++ sf :: post)%list →
  fields_refs c objd (Fields s) pre = Some ps →
  Forall (λ p, want fuel p.1 p.2 c = (Some (Some (found p), None), c)) ps →
  gostrings.Contains (skyobjectTag sf) "href" = true →
  Type_ sf ≠ hrefTypeName →
  Type_ sf ≠ hrefArrayTypeName →
  Type_ sf ≠ dynamicHrefTypeName →
  want (S fuel) schk objk c = (Some (None, Some ErrUnexpectedHrefTag), c).
Proof.
  intros Hs Ho Hd Hf Hpre Hall Hhref Ht1 Ht2 Ht3.
  rewrite (want_both_present _ _ _ schd objd), Hd by done.
  cbv beta iota. rewrite Hf at 2.
  assert (Hwalk : want_fields (want fuel) objd (Fields s)
                    (pre ++ sf :: post) ∅ c
                  = (Some (GotoError ErrUnexpectedHrefTag), c)).
  { rewrite want_fields_app.
    rewrite (bind_run _ _ c c (Next (∅ ∪ ⋃ (found <$> ps))))
      by by apply want_fields_gives.
    cbn [want_fields].
    rewrite (bind_run _ _ c c (GotoError ErrUnexpectedHrefTag)); [done|].
    unfold want_field. rewrite Hhref. cbn [negb].
    apply String.eqb_neq in Ht1, Ht2, Ht3. by rewrite Ht1, Ht2, Ht3. }
  by rewrite (bind_run _ _ c c _ Hwalk).
Qed.

(** X15: [want] has no guard against cycles: on a pair from which the
    first references lead around a cycle it never returns (whatever the
    budget, the budget is used up). *)
Theorem want_cycle_never_returns (loop : SHA256 * SHA256 → Prop)
    (c : Container) :
  (∀ p, loop p → ∃ q ps, node_refs c p.1 p.2 = Some (q :: ps) ∧ loop q) →
  ∀ (fuel : nat) (p : SHA256 * SHA256),
    loop p → (want fuel p.1 p.2 c).1 = None.
Proof.
  intros Hloop. induction fuel as [|fuel IH]; intros p Hp; [done|].
  destruct (Hloop p Hp) as (q & ps & Hn & Hq).
  rewrite (want_as_calls _ _ _ (q :: ps)) by done.
  unfold bind.
  pose proof (calls_exhausted (want fuel) (λ _, ∅)
                [] ps q ∅ c (Forall_nil_2 _) (IH q Hq)) as Hc.
  cbn [app] in Hc.
  by destruct (calls (want fuel) (q :: ps) ∅ c) as [[fl|] c1].
Qed.

(** X16: [addMissing] adds to the map exactly those of the keys that the
    store does not have, keeps what the map held, and leaves the
    container as it is. *)
Theorem addMissing_adds_absent (keys : list SHA256) (w : gset SHA256)
    (c : Container) :
  addMissing w keys c =
    (Some (w ∪ list_to_set
                 (filter (λ k, data.data (db c) !! k = None) keys)), c).
Proof.
  revert w. induction keys as [|key keys IH]; intros w.
  - cbn. unfold ret. by rewrite (right_id_L ∅ (∪)).
  - cbn [addMissing]. rewrite filter_cons.
    destruct (data.data (db c) !! key) as [v|] eqn:Hk.
    + rewrite (bind_run _ _ c c (v, true)) by by apply db_Get_present.
      cbn [negb]. rewrite IH. by rewrite decide_False.
    + rewrite (bind_run _ _ c c (nil_bytes, false))
        by by apply db_Get_absent.
      cbn [negb]. rewrite IH, decide_True by done.
      cbn [list_to_set foldr].
      by rewrite (comm_L (∪) {[key]} w), (assoc_L (∪)).
Qed.

(** X21: a failure of a nested call aborts the whole call: when the call
    for one of the references gives an error, after the calls before it
    gave maps, [want] returns that error with the nil map, whatever map
    came with the error and whatever the earlier calls had found. *)
Theorem want_nested_failure (fuel : nat) (schk objk : SHA256)
    (pre post : list (SHA256 * SHA256)) (p : SHA256 * SHA256)
    (found : SHA256 * SHA256 → gset SHA256)
    (wm : option (gset SHA256)) (e : error) (c : Container) :
  node_refs c schk objk = Some (pre ++ p :: post)%list →
  Forall (λ q, want fuel q.1 q.2 c = (Some (Some (found q), None), c)) pre →
  (want fuel p.1 p.2 c).1 = Some (wm, Some e) →
  want (S fuel) schk objk c = (Some (None, Some e), c).
Proof.
  intros Hn Hpre Hp%want_run.
  rewrite (want_as_calls _ _ _ _ _ Hn).
  by rewrite (bind_run _ _ c c (GotoError e))
    by by apply (calls_stops (want fuel) found pre post p wm).
Qed.

Lemma union_found_absent (c : Container) (ps : list (SHA256 * SHA256)) :
  ⋃ ((λ p, if decide (data.data (db c) !! p.2 = None)
           then {[p.2]} else (∅ : gset SHA256)) <$> ps)
  = list_to_set (filter (λ h, data.data (db c) !! h = None) ps.*2).
Proof.
  induction ps as [|p ps IH]; [done|].
  cbn [fmap list_fmap union_list foldr]. rewrite filter_cons.
  fold (⋃ ((λ p, if decide (data.data (db c) !! p.2 = None)
                 then {[p.2]} else (∅ : gset SHA256)) <$> ps)).
  rewrite IH. destruct (decide (data.data (db c) !! p.2 = None)); [done|].
  by rewrite (left_id_L ∅ (∪)).
Qed.

(** X20: when the references of the pair all have their schema in the
    store, and each referenced object is either not in the store or has
    the whole graph below it in the store, [want] returns exactly the
    hashes of the referenced objects that are not in the store, and no
    error.  (So an array of references of which one is missing gives
    that one hash.) *)
Theorem want_missing_references (depth fuel : nat) (schk objk : SHA256)
    (ps : list (SHA256 * SHA256)) (c : Container) :
  node_refs c schk objk = Some ps →
  Forall (λ p, is_Some (data.data (db c) !! p.1) ∧
               (data.data (db c) !! p.2 = None ∨
                graph_present depth c p.1 p.2 = true)) ps →
  (depth ≤ S fuel)%nat →
  want (S (S fuel)) schk objk c =
    (Some (Some (list_to_set
                   (filter (λ h, data.data (db c) !! h = None) ps.*2)),
           None), c).
Proof.
  intros Hn Hall Hle.
  rewrite (want_node _ _ _ ps
             (λ p, if decide (data.data (db c) !! p.2 = None)
                   then {[p.2]} else ∅)); [|done|].
  - by rewrite union_found_absent.
  - eapply Forall_impl; [exact Hall|].
    intros p [[schd Hs] Hp]. unfold gives.
    destruct (decide (data.data (db c) !! p.2 = None)) as [Ho|Ho].
    + by apply (want_object_absent _ _ _ schd).
    + destruct Hp as [Hp|Hp]; [done|].
      by apply (want_graph_present depth).
Qed.

(** *** Schema names in tags *)

Lemma Split_cons (s : string) (sep : ascii) :
  ∃ p ps, gostrings.Split s sep = p :: ps.
Proof.
  destruct s as [|ch s]; cbn; [by eexists _, _|].
  destruct (Ascii.eqb ch sep); [by eexists _, _|].
  destruct (gostrings.Split s sep); by eexists _, _.
Qed.

Lemma Split_no_sep (s : string) (sep : ascii) :
  mentions sep s = false → gostrings.Split s sep = [s].
Proof.
  induction s as [|ch s IH]; [done|]. cbn.
  intros [Hch Hs]%orb_false_elim. rewrite Hch. by rewrite IH.
Qed.

Lemma Split_with_sep (s : string) (sep : ascii) :
  mentions sep s = true → (2 ≤ length (gostrings.Split s sep))%nat.
Proof.
  induction s as [|ch s IH]; [done|]. cbn.
  destruct (Ascii.eqb ch sep) eqn:Hch.
  - intros _. destruct (Split_cons s sep) as (p & ps & ->). cbn. lia.
  - cbn. intros Hs%IH.
    destruct (gostrings.Split s sep) as [|p ps]; cbn in *; lia.
Qed.

(** The pieces of [Split] hold no byte that the string does not hold,
    and do not hold the separator. *)
Lemma Split_pieces_mention (s : string) (sep ch : ascii) :
  mentions ch s = false ∨ ch = sep →
  Forall (λ p, mentions ch p = false) (gostrings.Split s sep).
Proof.
  induction s as [|x s IH]; intros Hch.
  - by repeat constructor.
  - cbn [gostrings.Split].
    assert (Hs : Forall (λ p, mentions ch p = false) (gostrings.Split s sep)).
    { apply IH. destruct Hch as [Hch| ->]; [|by right].
      left. cbn in Hch. by apply orb_false_elim in Hch as [_ ?]. }
    destruct (Ascii.eqb x sep) eqn:Hx.
    + by constructor.
    + destruct (Split_cons s sep) as (p & ps & Hsp). rewrite Hsp in Hs |- *.
      apply Forall_cons in Hs as [Hp Hps]. constructor; [|done].
      cbn. rewrite Hp, orb_false_r.
      destruct Hch as [Hch| ->]; [|done].
      cbn in Hch. by apply orb_false_elim in Hch as [? _].
Qed.

Lemma Split_schema_eq (name : string) :
  gostrings.Split ("schema=" ++ name) "="%char
  = "schema" :: gostrings.Split name "="%char.
Proof.
  reflexivity.
Qed.

Lemma Split_href (rest : string) :
  gostrings.Split ("href," ++ rest) ","%char
  = "href" :: gostrings.Split rest ","%char.
Proof. reflexivity. Qed.

Lemma HasPrefix_schema (name : string) :
  gostrings.HasPrefix ("schema=" ++ name) "schema=" = true.
Proof.
  unfold gostrings.HasPrefix. cbn. by destruct name.
Qed.

(** X17: a tag built from a schema name reads back to that name: for a
    name with no comma and no equals sign, [tagSchemaName] gives the
    name and no error on ["href,schema=" ++ name] and on
    ["schema=" ++ name]; a name with an equals sign cannot be written in
    a tag: [tagSchemaName] then reports an invalid schema tag. *)
Theorem tagSchemaName_of_name (name : string) :
  mentions ","%char name = false →
  (mentions "="%char name = false →
   tagSchemaName ("href,schema=" ++ name) = (name, None) ∧
   tagSchemaName ("schema=" ++ name) = (name, None)) ∧
  (mentions "="%char name = true →
   tagSchemaName ("href,schema=" ++ name)
   = ("", Some (ErrInvalidSchemaTag ("schema=" ++ name)))).
Proof.
  intros Hcomma.
  assert (Hsplit : gostrings.Split ("schema=" ++ name) ","%char
                   = ["schema=" ++ name]).
  { apply Split_no_sep. exact Hcomma. }
  assert (Hhref : gostrings.Split ("href,schema=" ++ name) ","%char
                  = ["href"; "schema=" ++ name]).
  { change ("href,schema=" ++ name) with ("href," ++ ("schema=" ++ name)).
    by rewrite Split_href, Hsplit. }
  split.
  - intros Heq. unfold tagSchemaName. rewrite Hhref, Hsplit.
    cbn [tagSchemaName_loop]. change (gostrings.HasPrefix "href" "schema=")
      with false. cbv iota.
    rewrite HasPrefix_schema, Split_schema_eq, (Split_no_sep name) by done.
    done.
  - intros Heq. unfold tagSchemaName. rewrite Hhref.
    cbn [tagSchemaName_loop]. change (gostrings.HasPrefix "href" "schema=")
      with false. cbv iota.
    rewrite HasPrefix_schema, Split_schema_eq.
    apply Split_with_sep in Heq. cbn [length].
    destruct (length (gostrings.Split name "="%char)) as [|[|n]] eqn:Hl;
      [lia|lia|done].
Qed.

Lemma tagSchemaName_loop_None (ps : list string) :
  tagSchemaName_loop ps = None ↔
  Forall (λ p, gostrings.HasPrefix p "schema=" = false) ps.
Proof.
  induction ps as [|p ps IH]; [done|]. cbn [tagSchemaName_loop].
  destruct (gostrings.HasPrefix p "schema=") eqn:Hp.
  - split.
    + by destruct (negb _).
    + intros [Hp' _]%Forall_cons. congruence.
  - rewrite IH. split; [by constructor | by intros [_ ?]%Forall_cons].
Qed.

Lemma tagSchemaName_loop_Some (ps : list string) (r : string * option error) :
  tagSchemaName_loop ps = Some r →
  ∃ p, p ∈ ps ∧
       ((r = ("", Some (ErrInvalidSchemaTag p))) ∨
        (r.2 = None ∧ r.1 ∈ gostrings.Split p "="%char)).
Proof.
  induction ps as [|p ps IH]; [done|]. cbn [tagSchemaName_loop].
  destruct (gostrings.HasPrefix p "schema=").
  - destruct (negb _) eqn:Hlen; intros [= <-].
    + exists p. split; [apply list_elem_of_here|]. by left.
    + exists p. split; [apply list_elem_of_here|]. right. split; [done|].
      cbn. apply negb_false_iff, Nat.eqb_eq in Hlen.
      destruct (gostrings.Split p "="%char) as [|a [|b [|? ?]]]; try done.
      cbn. apply list_elem_of_further, list_elem_of_here.
  - intros (q & Hq & Hr)%IH. exists q. split; [|done].
    by apply list_elem_of_further.
Qed.

(** X18: [tagSchemaName] reports "missing schema name" exactly when no
    piece of the tag between commas starts with ["schema="] (so for the
    empty tag and for ["href"]); a name that it returns without an error
    holds no comma and no equals sign. *)
Theorem tagSchemaName_missing (tag : string) :
  (tagSchemaName tag = ("", Some ErrMissingSchemaName) ↔
   Forall (λ p, gostrings.HasPrefix p "schema=" = false)
     (gostrings.Split tag ","%char)) ∧
  (∀ name, tagSchemaName tag = (name, None) →
           mentions ","%char name = false ∧ mentions "="%char name = false).
Proof.
  unfold tagSchemaName. split.
  - rewrite <- tagSchemaName_loop_None.
    destruct (tagSchemaName_loop _) as [r|] eqn:Hl; [|done].
    split; [|done]. intros ->.
    apply tagSchemaName_loop_Some in Hl as (p & _ & [[=]|[[=] _]]).
  - intros name.
    destruct (tagSchemaName_loop _) as [r|] eqn:Hl; [|done].
    intros ->.
    apply tagSchemaName_loop_Some in Hl as (p & Hp & [[=]|[_ Hname]]).
    cbn in Hname.
    assert (Hpc : mentions ","%char p = false).
    { pose proof (Split_pieces_mention tag ","%char ","%char
                    (or_intror eq_refl)) as Hall.
      rewrite Forall_forall in Hall. by apply Hall. }
    split.
    + pose proof (Split_pieces_mention p "="%char ","%char
                    (or_introl Hpc)) as Hall.
      rewrite Forall_forall in Hall. by apply Hall.
    + pose proof (Split_pieces_mention p "="%char "="%char
                    (or_intror eq_refl)) as Hall.
      rewrite Forall_forall in Hall. by apply Hall.
Qed.

(** X19: [schemaByTag] gives a hash and no error exactly when a root is
    held, the tag names a schema, and the registry of the root has that
    name; the hash is then the registered one.  In every case it leaves
    the container as it is. *)
Theorem schemaByTag_success (tag : string) (s : SHA256) (c : Container) :
  ((schemaByTag tag c).1 = Some (s, None) ↔
   ∃ r name, root c = Some r ∧ tagSchemaName tag = (name, None) ∧
             registry r !! name = Some s) ∧
  (schemaByTag tag c).2 = c.
Proof.
  split; [|apply readonly_schemaByTag].
  unfold schemaByTag.
  destruct (tagSchemaName tag) as [name [e|]] eqn:Ht.
  - split; [done|]. by intros (r & n & _ & [=] & _).
  - unfold bind, read_root. destruct (root c) as [r|] eqn:Hr.
    + destruct (registry r !! name) as [s'|] eqn:Hreg; cbn.
      * split.
        -- intros [= ->]. by exists r, name.
        -- intros (r' & n & [= <-] & [= <-] & Hs). congruence.
      * split; [done|].
        intros (r' & n & [= <-] & [= <-] & Hs). congruence.
    + split; [done|]. by intros (r & n & [=] & _).
Qed.

End resolver_more.

(** ** The further properties at the small instances *)

Section more_at_demo.
Import skyobject.
#[local] Existing Instance demo.cipher.
#[local] Existing Instance demo.reflect.

Lemma Update_other_keys_witness :
  (98%N ≠ 25443%N → data.Get demo_more.store_ab 98%N = data.Get demo.store_a 98%N) ∧
  (data.Has demo.store_a 98%N = true → data.Has demo_more.store_ab 98%N = true).
Proof.
  apply (Update_other_keys demo.store_a demo_more.store_ab demo.payload_b
           25443%N 98%N).
  reflexivity.
Defined.

Lemma Add_keeps_entries_witness :
  (∀ k' v', data.data demo.store_a !! k' = Some v' →
            data.data demo_more.store_ab !! k' = Some v') ∧
  (∀ k', k' ≠ 25443%N → data.Get demo_more.store_ab k' = data.Get demo.store_a k') ∧
  (@None error = None ↔ data.data demo.store_a !! 25443%N = None).
Proof.
  apply (Add_keeps_entries demo.store_a demo_more.store_ab 25443%N demo.payload_b None).
  reflexivity.
Defined.

Lemma Add_after_store_witness :
  data.Add demo_more.store_ab 25443%N demo.payload_a
    = Done (Some (ErrKeyAlreadyPresent 25443%N), demo_more.store_ab) ∧
  data.Get demo_more.store_ab 25443%N = (demo.payload_b, true).
Proof.
  apply (Add_after_store demo.store_a demo_more.store_ab 25443%N demo.payload_b
           demo.payload_a).
  - left. reflexivity.
  - reflexivity.
Defined.

Lemma built_no_zero_no_nil_witness :
  (∀ k v, data.data demo_more.store_b !! k = Some v →
          k ≠ zeroSHA256 ∧ bytes_is_nil v = false) ∧
  (∀ k, bytes_is_nil (data.Get demo_more.store_b k).1 = negb (data.Get demo_more.store_b k).2).
Proof.
  apply (built_no_zero_no_nil demo_more.store_b).
  apply (built_Update data.NewDB demo_more.store_b demo.payload_b 25443%N);
    [apply built_NewDB | reflexivity].
Defined.


Lemma Statistic_after_store_witness :
  data.Total (data.Statistic_of demo_more.store_ab)
    = S (data.Total (data.Statistic_of demo.store_a)) ∧
  data.Memory (data.Statistic_of demo_more.store_ab)
    = data.Memory (data.Statistic_of demo.store_a) + len demo.payload_b.
Proof.
  apply (Statistic_after_store demo.store_a demo_more.store_ab 25443%N demo.payload_b).
  left. reflexivity.
Defined.

Lemma SetRoot_all_order_witness :
  Time <$> root (SetRoot_all (NewContainer data.NewDB)
                   [demo.root_at 3; demo.root_at 7])
  = Time <$> root (SetRoot_all (NewContainer data.NewDB)
                     [demo.root_at 7; demo.root_at 3]).
Proof.
  apply (SetRoot_all_order (NewContainer data.NewDB)
           [demo.root_at 3; demo.root_at 7] [demo.root_at 7; demo.root_at 3]).
  apply Permutation_swap.
Defined.

Lemma tagSchemaName_of_name_witness :
  (mentions "="%char "Person" = false →
   tagSchemaName ("href,schema=" ++ "Person") = ("Person", None) ∧
   tagSchemaName ("schema=" ++ "Person") = ("Person", None)) ∧
  (mentions "="%char "Person" = true →
   tagSchemaName ("href,schema=" ++ "Person")
   = ("", Some (ErrInvalidSchemaTag ("schema=" ++ "Person")))).
Proof. apply (tagSchemaName_of_name "Person"). reflexivity. Defined.

Section with_demo_encoder.
#[local] Existing Instance demo.encoder.

Lemma want_only_missing_witness :
  data.data (db demo.container_without_O2) !! demo.O2 = None.
Proof.
  apply (want_only_missing 2 demo.S1 demo.O1 {[demo.O2]}
           demo.container_without_O2).
  - reflexivity.
  - apply elem_of_singleton. reflexivity.
Defined.

Lemma want_error_map_witness :
  Some (∅ : gset SHA256) = None ∨
  (Some (∅ : gset SHA256) = Some ∅ ∧
   ∃ schd objd,
     data.data (db demo.container_bad_schema) !! 5%N = Some schd ∧
     data.data (db demo.container_bad_schema) !! 23%N = Some objd ∧
     DeserializeRaw schd = DecodeFailed (ErrEncoder "not a schema")).
Proof.
  apply (want_error_map 1 5%N 23%N (Some ∅) (ErrEncoder "not a schema")
           demo.container_bad_schema).
  reflexivity.
Defined.

Lemma want_union_of_calls_witness :
  want 2 demo.S1 demo.O1 demo.container_without_O2
  = (Some (Some (⋃ ((λ _, {[demo.O2]}) <$> [(demo.S2, demo.O2)])), None),
     demo.container_without_O2).
Proof.
  apply (want_union_of_calls 1 demo.S1 demo.O1 [(demo.S2, demo.O2)]
           (λ _, {[demo.O2]}) demo.container_without_O2).
  - reflexivity.
  - constructor; [reflexivity | constructor].
Defined.

Lemma want_object_missing_witness :
  want 1 demo.S2 demo.O2 demo.container_without_O2
  = (Some (Some {[demo.O2]}, None), demo.container_without_O2).
Proof.
  apply (want_object_missing 0 demo.S2 demo.O2 (mk_bytes [Byte.x02])
           demo.container_without_O2); reflexivity.
Defined.

Lemma want_cycle_never_returns_witness :
  (want 7 2%N 23%N demo_more.container_cycle).1 = None.
Proof.
  refine (want_cycle_never_returns (λ p, p = (2%N, 23%N))
            demo_more.container_cycle _ 7 (2%N, 23%N) _).
  - intros p ->. exists (2%N, 23%N), []. split; reflexivity.
  - reflexivity.
Defined.

Lemma want_nested_failure_witness :
  want 2 2%N 23%N demo_more.container_nested_bad
  = (Some (None, Some (ErrEncoder "not a schema")),
     demo_more.container_nested_bad).
Proof.
  apply (want_nested_failure 1 2%N 23%N [] [] (5%N, 22%N) (λ _, ∅)
           (Some ∅) (ErrEncoder "not a schema")
           demo_more.container_nested_bad).
  - reflexivity.
  - constructor.
  - reflexivity.
Defined.

End with_demo_encoder.

Section with_more_encoder.
#[local] Existing Instance demo_more.encoder.

Lemma want_unexpected_type_witness :
  want 1 4%N 23%N demo_more.container_bad_type
  = (Some (None, Some ErrUnexpectedHrefTag), demo_more.container_bad_type).
Proof.
  apply (want_unexpected_type 0 4%N 23%N (mk_bytes [Byte.x03])
           (mk_bytes [Byte.x16]) demo_more.schema_three [] []
           {| Name := "Bad"; Type_ := "string"; Tag := "href" |}
           [] (λ _, ∅) demo_more.container_bad_type);
    try reflexivity; try discriminate.
  constructor.
Defined.

Lemma want_missing_references_witness :
  want 2 6%N 30%N demo_more.container_array
  = (Some (Some (list_to_set
                   (filter (λ h, data.data (db demo_more.container_array)
                                   !! h = None)
                      [(3%N, 22%N); (3%N, 24%N); (3%N, 25%N)].*2)), None),
     demo_more.container_array).
Proof.
  apply (want_missing_references 1 0 6%N 30%N
           [(3%N, 22%N); (3%N, 24%N); (3%N, 25%N)]
           demo_more.container_array).
  - reflexivity.
  - apply Forall_cons.
    split; [split; [eexists; reflexivity | left; reflexivity]|].
    apply Forall_cons.
    split; [split; [eexists; reflexivity | right; reflexivity]|].
    apply Forall_cons.
    split; [split; [eexists; reflexivity | right; reflexivity]|].
    constructor.
  - lia.
Defined.

(** The array with one missing element gives that element. *)
Example want_array_one_missing :
  (Want 2 demo_more.container_array).1 = Some (Some {[22%N]}, None).
Proof. reflexivity. Qed.

End with_more_encoder.

(** [Where] and [Statistic] on a store of three one-byte payloads, and a
    root that arrives encoded. *)
Example Where_small_keys :
  data.Where demo.store_without_O2 (λ k _, (k <? 10)%N) ≡ₚ [2%N; 3%N] ∧
  data.Statistic_of demo.store_without_O2
  = {| data.Total := 3; data.Memory := 3 |}.
Proof. split; reflexivity. Qed.

Example SetEncodedRoot_cases :
  (∃ c', SetEncodedRoot (H := demo_more.root_decoder)
           demo.container_with_O2 (mk_bytes [Byte.x05])
         = Done ((true, None), c') ∧ Time <$> root c' = Some 5%Z) ∧
  SetEncodedRoot (H := demo_more.root_decoder) demo.container_with_O2
    (mk_bytes [Byte.x01])
  = Done ((false, None), demo.container_with_O2) ∧
  SetEncodedRoot (H := demo_more.root_decoder) demo.container_with_O2
    nil_bytes
  = Done ((false, Some ErrMalformedRoot), demo.container_with_O2).
Proof. split; [eexists; split; reflexivity | split; reflexivity]. Qed.

End more_at_demo.
